(** * Street View archiver: coordinate extraction, location resolution and
      document writing

    A shallow embedding of [street_view_archiver_public.py] (class
    [StreetViewArchiver]) and the properties its specification states.

    Conventions of the embedding.
    - A Python [str] is a list of characters, [str := list ascii]; a
      character is a code point below 256.  In that range the decimal digits
      of the regular-expression class [\d] are exactly [0]..[9] and the
      characters [str.strip] removes are the twelve listed in [is_space].
    - A Python [float] is the rational it denotes ([Q]); infinities, NaN and
      the negative zero are outside this type.  [py_float] gives the number
      a text denotes; the binary64 value Python keeps of it is [binary64] of
      that number, taken where the entry points pass the extracted pair
      on ([process_url]).
    - A Python [int] is a [Z].
    - A raised exception is the left summand of [result].
    - The two services the program talks to are inputs of the embedding: the
      reply of the geocoding request is an argument of [get_location_info],
      and the document service is the state [Docs.service], with a model of
      text insertion and paragraph styling ([Module Docs]). *)

From Stdlib Require Import Ascii String DecimalString.
From Stdlib Require Import ZArith QArith Qabs Bool Lia List.
Import ListNotations.

Open Scope Z_scope.
Open Scope list_scope.

(** ** Strings *)

Definition str := list ascii.

(** A string literal of the source. *)
Definition s (lit : string) : str := list_ascii_of_string lit.

Definition ascii_in (lo hi c : ascii) : bool :=
  (N.leb (N_of_ascii lo) (N_of_ascii c) && N.leb (N_of_ascii c) (N_of_ascii hi))%bool.

Definition is_digit (c : ascii) : bool := ascii_in "0" "9" c.

(** [str.isspace] on one character: TAB, LF, VT, FF, CR, the separators
    FS, GS, RS and US, the space, NEL and the no-break space. *)
Definition is_space (c : ascii) : bool :=
  let n := N_of_ascii c in
  (((9 <=? n) && (n <=? 13)) || ((28 <=? n) && (n <=? 32))
   || (n =? 133) || (n =? 160))%N%bool.

Definition newline : ascii := "010".

Fixpoint lstrip (t : str) : str :=
  match t with
  | c :: t' => if is_space c then lstrip t' else t
  | [] => []
  end.

Definition rstrip (t : str) : str := rev (lstrip (rev t)).

(** [t.strip()] *)
Definition strip (t : str) : str := lstrip (rstrip t).

Definition str_eqb (a b : str) : bool :=
  if list_eq_dec ascii_dec a b then true else false.

Fixpoint starts_with (needle hay : str) : bool :=
  match needle, hay with
  | [], _ => true
  | c :: n', d :: h' => Ascii.eqb c d && starts_with n' h'
  | _ :: _, [] => false
  end.

(** [needle in hay] on strings: substring test. *)
Fixpoint contains (needle hay : str) : bool :=
  starts_with needle hay ||
  match hay with
  | [] => false
  | _ :: h' => contains needle h'
  end.

(** ** Exceptions *)

(** The exception classes the program can raise or let through.
    [RequestException] stands for the classes of [requests.exceptions]
    ([ConnectionError], [Timeout], [HTTPError] of [raise_for_status], a body
    that is not JSON); [HttpError] is [googleapiclient.errors.HttpError]. *)
Inductive exn_class : Type :=
  | ValueError
  | IndexError
  | RequestException
  | HttpError.

Record exn : Type := Raise { exn_kind : exn_class; exn_msg : str }.

Definition result (A : Type) : Type := (exn + A)%type.

Definition ok {A} (a : A) : result A := inr a.
Definition raise {A} (k : exn_class) (msg : str) : result A := inl (Raise k msg).

(** ** Regular expressions of the source *)

Module Re.

(** The two patterns of [extract_coordinates] are sequences of
    single-character atoms, each taken once, optionally ([?]) or one or more
    times ([+]), with capture groups around runs of them. *)
Inductive atom : Type :=
  | Chr (c : ascii)      (* a literal character, also an escaped one *)
  | Digit.               (* \d *)

Inductive item : Type :=
  | One (a : atom)
  | Opt (a : atom)       (* a? , greedy *)
  | Plus (a : atom)      (* a+ , greedy *)
  | GOpen                (* ( *)
  | GClose.              (* ) *)

Definition pattern := list item.

Definition accepts (a : atom) (c : ascii) : bool :=
  match a with
  | Chr d => Ascii.eqb d c
  | Digit => is_digit c
  end.

(** [a+] followed by the continuation [k]: the longest run is tried first,
    then shorter ones, down to one character. [acc] is the text consumed
    since the group in progress was opened. *)
Fixpoint plus_loop {A} (a : atom) (k : str -> str -> option A)
    (t acc : str) : option A :=
  match t with
  | c :: t' =>
      if accepts a c then
        match plus_loop a k t' (acc ++ [c]) with
        | Some r => Some r
        | None => k t' (acc ++ [c])
        end
      else None
  | [] => None
  end.

(** Backtracking match of [p] at the start of [t]; the result is the list
    of the captured groups, in order. *)
Fixpoint match_here (p : pattern) (t acc : str) (gs : list str)
    : option (list str) :=
  match p with
  | [] => Some gs
  | One a :: p' =>
      match t with
      | c :: t' => if accepts a c then match_here p' t' (acc ++ [c]) gs else None
      | [] => None
      end
  | Opt a :: p' =>
      match t with
      | c :: t' =>
          if accepts a c then
            match match_here p' t' (acc ++ [c]) gs with
            | Some r => Some r
            | None => match_here p' t acc gs
            end
          else match_here p' t acc gs
      | [] => match_here p' t acc gs
      end
  | Plus a :: p' => plus_loop a (fun t' acc' => match_here p' t' acc' gs) t acc
  | GOpen :: p' => match_here p' t [] gs
  | GClose :: p' => match_here p' t [] (gs ++ [acc])
  end.

(** [re.search(p, t)]: the match at the leftmost position that has one. *)
Fixpoint search (p : pattern) (t : str) : option (list str) :=
  match match_here p t [] [] with
  | Some gs => Some gs
  | None =>
      match t with
      | [] => None
      | _ :: t' => search p t'
      end
  end.

(** [m.group(i)] for [i >= 1]. *)
Definition group (m : list str) (i : nat) : option str := nth_error m (i - 1).

End Re.

Import Re.

(** [(-?\d+\.\d+)] *)
Definition number_group : pattern :=
  [GOpen; Opt (Chr "-"); Plus Digit; One (Chr "."); Plus Digit; GClose].

(** [@(-?\d+\.\d+),(-?\d+\.\d+)] *)
Definition at_pattern : pattern :=
  [One (Chr "@")] ++ number_group ++ [One (Chr ",")] ++ number_group.

(** [!3d(-?\d+\.\d+)!4d(-?\d+\.\d+)] *)
Definition pin_pattern : pattern :=
  [One (Chr "!"); One (Chr "3"); One (Chr "d")] ++ number_group ++
  [One (Chr "!"); One (Chr "4"); One (Chr "d")] ++ number_group.

Definition patterns : list pattern := [at_pattern; pin_pattern].

(** ** [float()] *)

Definition digit_val (c : ascii) : Z := Z.of_N (N_of_ascii c) - 48.

(** Value of a run of decimal digits. *)
Definition digits_val (ds : str) : Z :=
  fold_left (fun v c => 10 * v + digit_val c) ds 0.

(** The longest prefix of decimal digits, and what follows it. *)
Fixpoint span_digits (t : str) : str * str :=
  match t with
  | c :: t' =>
      if is_digit c then let (d, r) := span_digits t' in (c :: d, r)
      else ([], t)
  | [] => ([], [])
  end.

(** The number with integer digits [ip] and fraction digits [fp]. *)
Definition decimal_value (neg : bool) (ip fp : str) : Q :=
  let m := digits_val (ip ++ fp) in
  Qmake (if neg then - m else m) (Z.to_pos (10 ^ Z.of_nat (length fp))).

(** [float(t)] on the texts written with white space, signs, digits and
    points, which is all a capture group of the patterns above can hold:
    surrounding white space, a sign, then digits with an optional point and
    fraction, or a point and digits; [None] is [ValueError].  The other
    literals Python accepts (exponents, [inf], [nan], digit separators) need
    other characters and are outside this function: it gives [None] on
    them.  The value is the number the text denotes, as it is written; the
    float Python keeps is the binary64 number nearest to it, [binary64]
    below, which [process_url] takes of the extracted pair before the pair
    is printed, geocoded and written. *)
Definition py_float (t : str) : option Q :=
  let t := strip t in
  let '(neg, t) :=
    match t with
    | c :: t' =>
        if Ascii.eqb c "-" then (true, t')
        else if Ascii.eqb c "+" then (false, t')
        else (false, t)
    | [] => (false, [])
    end in
  let '(ip, r) := span_digits t in
  match r with
  | [] => match ip with [] => None | _ => Some (decimal_value neg ip []) end
  | c :: r' =>
      if Ascii.eqb c "." then
        let '(fp, r'') := span_digits r' in
        match r'', ip ++ fp with
        | [], _ :: _ => Some (decimal_value neg ip fp)
        | _, _ => None
        end
      else None
  end.

(** ** [extract_coordinates] *)

Definition extraction_failure (url : str) : exn :=
  Raise ValueError (s "Could not extract valid coordinates from URL: " ++ url).

(** One turn of the loop over the patterns: [Some] is the [return],
    [None] falls through to the next pattern (no match, or the [continue]
    of the [except ValueError]). *)
Definition try_pattern (p : pattern) (url : str) : option (result (Q * Q)) :=
  match search p url with
  | Some m =>
      match group m 1, group m 2 with
      | Some g1, Some g2 =>
          match py_float g1 with
          | Some lat =>
              match py_float g2 with
              | Some lon => Some (ok (lat, lon))
              | None => None
              end
          | None => None
          end
      | _, _ => Some (raise IndexError (s "no such group"))
      end
  | None => None
  end.

Fixpoint extract_loop (ps : list pattern) (url : str) : result (Q * Q) :=
  match ps with
  | p :: ps' =>
      match try_pattern p url with
      | Some r => r
      | None => extract_loop ps' url
      end
  | [] => inl (extraction_failure url)
  end.

Definition extract_coordinates (url : str) : result (Q * Q) :=
  extract_loop patterns url.

(** ** [get_location_info] *)

(** The JSON body of the geocoding service, as far as the function reads
    it.  A key read with [.get] may be absent; a key read with [[...]] is a
    field. *)
Record component : Type :=
  { types : list str; long_name : str }.

Record geocode_result : Type :=
  { address_components : list component }.

Record geocode_data : Type :=
  { status : option str; results : option (list geocode_result) }.

(** What [requests.get(url, timeout=10)] gives for the request the function
    builds from [lat], [lon] and the API key: no reply at all (connection
    failure, timeout), or a reply with its HTTP status code and its body,
    [None] when the body is not JSON. *)
Inductive http_reply : Type :=
  | NoReply
  | Reply (status_code : Z) (body : option geocode_data).

(** [x in l] on a list of strings. *)
Definition mem (x : str) (l : list str) : bool := existsb (str_eqb x) l.

(** [str(o)] inside an f-string. *)
Definition show_opt (o : option str) : str :=
  match o with
  | Some t => t
  | None => s "None"
  end.

Definition opt_str_eqb (o : option str) (t : str) : bool :=
  match o with
  | Some u => str_eqb u t
  | None => false
  end.

(** Body of the loop over the address components. *)
Definition scan_component (acc : option str * option str) (c : component)
    : option str * option str :=
  let '(country, state) := acc in
  let country :=
    if mem (s "country") (types c) then Some (long_name c) else country in
  let state :=
    if mem (s "administrative_area_level_1") (types c)
    then Some (long_name c) else state in
  (country, state).

Definition api_error (st : option str) : exn :=
  Raise ValueError (s "Geocoding API error: " ++ show_opt st).

Definition no_results : exn :=
  Raise ValueError (s "No results found for the given coordinates").

Definition incomplete_location : exn :=
  Raise ValueError (s "Country or state information is missing").

(** The status codes on which [response.raise_for_status()] raises. *)
Definition http_error_status (code : Z) : bool :=
  ((400 <=? code) && (code <? 600))%bool.

Definition get_location_info (reply : http_reply) : result (str * str) :=
  match reply with
  | NoReply => raise RequestException (s "ConnectionError")
  | Reply code body =>
      (* response.raise_for_status() *)
      if http_error_status code
      then raise RequestException (s "HTTPError")
      else
        (* data = response.json() *)
        match body with
        | None => raise RequestException (s "JSONDecodeError")
        | Some data =>
            (* if data.get("status") != "OK" *)
            if negb (opt_str_eqb (status data) (s "OK"))
            then inl (api_error (status data))
            else
              (* results = data.get("results", []); if not results *)
              match results data with
              | None | Some [] => inl no_results
              | Some (first :: _) =>
                  let '(country, state) :=
                    fold_left scan_component (address_components first)
                      (None, None) in
                  (* if not country or not state *)
                  match country, state with
                  | Some (c :: country'), Some (d :: state') =>
                      ok (c :: country', d :: state')
                  | _, _ => inl incomplete_location
                  end
              end
        end
  end.

(** ** The coordinate text *)

(** The integer nearest to [n / d] for [0 <= n], ties to the even one. *)
Definition round_half_even (n : Z) (d : positive) : Z :=
  let q := n / Zpos d in
  let r := n mod Zpos d in
  if 2 * r <? Zpos d then q
  else if Zpos d <? 2 * r then q + 1
  else if Z.even q then q else q + 1.

Definition digit_char (d : Z) : ascii := ascii_of_N (Z.to_N (48 + d)).

(** Decimal digits of a natural number, without leading zeros. *)
Definition show_nat (n : Z) : str :=
  list_ascii_of_string (NilZero.string_of_uint (N.to_uint (Z.to_N n))).

(** [f"{x:.6f}"] *)
Definition fmt6 (x : Q) : str :=
  let m := round_half_even (Z.abs (Qnum x) * 1000000) (Qden x) in
  (if Qnum x <? 0 then ["-"%char] else []) ++
  show_nat (m / 1000000) ++ ["."%char] ++
  map (fun p => digit_char ((m / p) mod 10)) [100000; 10000; 1000; 100; 10; 1].

(** [f"{lat:.6f}, {lon:.6f}"] *)
Definition search_text (lat lon : Q) : str :=
  fmt6 lat ++ s ", " ++ fmt6 lon.

(** [f"{lat:.6f}, {lon:.6f}\n"] *)
Definition coord_text (lat lon : Q) : str :=
  fmt6 lat ++ s ", " ++ fmt6 lon ++ [newline].

(** ** The document as [documents().get] returns it *)

(** The part of the Docs API's JSON the program reads; every key it reads
    with [.get] or tests with [in] may be absent. *)
Record TextRun : Type := { content : option str }.

Record ParagraphElement : Type := { textRun : option TextRun }.

Record Paragraph : Type := { elements : list ParagraphElement }.

Record StructuralElement : Type :=
  { startIndex : option Z; paragraph : option Paragraph }.

Definition len (t : str) : Z := Z.of_nat (length t).

Definition run_content (run : ParagraphElement) : str :=
  match textRun run with
  | Some tr => match content tr with Some c => c | None => [] end
  | None => []
  end.

Definition has_textRun (run : ParagraphElement) : bool :=
  match textRun run with Some _ => true | None => false end.

(** ["".join(run.get("textRun", {}).get("content", "")
             for run in element["paragraph"]["elements"] if "textRun" in run)] *)
Definition paragraph_text (p : Paragraph) : str :=
  concat (map run_content (filter has_textRun (elements p))).

Definition location_exists_in_doc (doc_content : list StructuralElement)
    (lat lon : Q) (url : str) : bool :=
  existsb
    (fun element =>
       match paragraph element with
       | Some p =>
           let text := paragraph_text p in
           (contains (search_text lat lon) text || contains url text)%bool
       | None => false
       end)
    doc_content.

(** ** The requests of a batch update *)

Inductive named_style : Type :=
  | NAMED_STYLE_TYPE_UNSPECIFIED
  | NORMAL_TEXT
  | TITLE
  | SUBTITLE
  | HEADING_1
  | HEADING_2
  | HEADING_3
  | HEADING_4
  | HEADING_5
  | HEADING_6.

Inductive request : Type :=
  | InsertText (index : Z) (text : str)
  | UpdateParagraphStyle (range_start range_end : Z) (style : named_style)
  | UpdateTextStyle (range_start range_end : Z) (link_url : str).

(** Body of the loop that looks for the country and state headers. *)
Definition scan_header (country state : str) (acc : option Z * option Z)
    (element : StructuralElement) : option Z * option Z :=
  match paragraph element with
  | Some p =>
      let text := paragraph_text p in
      let start := match startIndex element with Some i => i | None => 1 end in
      if str_eqb (strip text) country then (Some start, snd acc)
      else if str_eqb (strip text) state then (fst acc, Some start)
      else acc
  | None => acc
  end.

Definition find_headers (doc_content : list StructuralElement)
    (country state : str) : option Z * option Z :=
  fold_left (scan_header country state) doc_content (None, None).

(** The list [requests] that [archive_location] builds once the duplicate
    check has passed. *)
Definition archive_requests (doc_content : list StructuralElement)
    (url : str) (lat lon : Q) (country state : str) : list request :=
  let '(country_index, state_index) := find_headers doc_content country state in
  (* Insert country header if not found *)
  let '(requests, country_index) :=
    match country_index with
    | None =>
        ([InsertText 1 (country ++ [newline]);
          UpdateParagraphStyle 1 (len country + 2) HEADING_1], 1)
    | Some i => ([], i)
    end in
  (* Insert state header if not found *)
  let '(requests, state_index) :=
    match state_index with
    | None =>
        let state_insert_index := country_index + len country + 1 in
        (requests ++
         [InsertText state_insert_index (state ++ [newline]);
          UpdateParagraphStyle state_insert_index
            (state_insert_index + len state + 1) HEADING_2],
         state_insert_index)
    | Some i => (requests, i)
    end in
  (* Insert hyperlinked coordinates as normal text under the state header *)
  let coord_index := state_index + len state + 1 in
  requests ++
  [InsertText coord_index (coord_text lat lon);
   UpdateTextStyle coord_index (coord_index + len (strip (coord_text lat lon))) url;
   UpdateParagraphStyle coord_index (coord_index + len (coord_text lat lon))
     NORMAL_TEXT].

(** ** The document service *)

Module Docs.

(** The Google Docs service behind [self.docs_service] is not part of the
    program; this module is a model of the two calls the program makes,
    [documents().get] and [documents().batchUpdate], after the behaviour the
    Docs API documents for them.

    The body of a document is a sequence of paragraphs; the text of a
    paragraph is kept without the newline that ends it.  Indexes count
    characters from 1, the newline of each paragraph included.  Links are
    not kept: a text-style update only has its range checked. *)
Record para : Type := { pstyle : named_style; ptext : str }.

Definition body := list para.

Definition wf (b : body) : Prop :=
  Forall (fun p => ~ In newline (ptext p)) b.

(** End index (exclusive) of a paragraph that starts at [start]. *)
Definition para_end (start : Z) (p : para) : Z := start + len (ptext p) + 1.

Fixpoint body_end (start : Z) (b : body) : Z :=
  match b with
  | [] => start
  | p :: b' => body_end (para_end start p) b'
  end.

(** [t] cut at its newlines. *)
Fixpoint lines (t : str) : list str :=
  match t with
  | [] => [[]]
  | c :: t' =>
      if Ascii.eqb c newline then [] :: lines t'
      else match lines t' with
           | l :: ls => (c :: l) :: ls
           | [] => [[c]]
           end
  end.

(** Text [t] inserted [off] characters into paragraph [p]: the paragraphs
    that result all keep the style of [p]. *)
Definition splice (p : para) (off : nat) (t : str) : list para :=
  map (Build_para (pstyle p))
      (lines (firstn off (ptext p) ++ t ++ skipn off (ptext p))).

(** [insertText]: the index has to fall inside a paragraph, at its start,
    between two of its characters or just before its newline. *)
Fixpoint insert_at (start : Z) (b : body) (i : Z) (t : str) : option body :=
  match b with
  | [] => None
  | p :: b' =>
      if ((start <=? i) && (i <? para_end start p))%bool
      then Some (splice p (Z.to_nat (i - start)) t ++ b')
      else option_map (cons p) (insert_at (para_end start p) b' i t)
  end.

(** A range is accepted when it is not empty and lies in the body. *)
Definition valid_range (b : body) (a z : Z) : bool :=
  ((1 <=? a) && (a <? z) && (z <=? body_end 1 b))%bool.

(** [updateParagraphStyle]: every paragraph that overlaps the range takes
    the style. *)
Fixpoint restyle (start : Z) (b : body) (a z : Z) (st : named_style) : body :=
  match b with
  | [] => []
  | p :: b' =>
      (if ((start <? z) && (a <? para_end start p))%bool
       then {| pstyle := st; ptext := ptext p |} else p)
      :: restyle (para_end start p) b' a z st
  end.

Definition apply_request (b : body) (r : request) : option body :=
  match r with
  | InsertText i t => insert_at 1 b i t
  | UpdateParagraphStyle a z st =>
      if valid_range b a z then Some (restyle 1 b a z st) else None
  | UpdateTextStyle a z _ =>
      if valid_range b a z then Some b else None
  end.

(** The requests of a batch are applied in order, each to the result of
    the one before; the batch is refused as a whole when one of them is. *)
Fixpoint apply_requests (b : body) (rs : list request) : option body :=
  match rs with
  | [] => Some b
  | r :: rs' =>
      match apply_request b r with
      | Some b' => apply_requests b' rs'
      | None => None
      end
  end.

(** A paragraph as the service returns it: its start index and its text,
    newline included, in one text run. *)
Definition render_para (start : Z) (p : para) : StructuralElement :=
  {| startIndex := Some start;
     paragraph := Some {| elements :=
       [{| textRun := Some {| content := Some (ptext p ++ [newline]) |} |}] |} |}.

Fixpoint render_from (start : Z) (b : body) : list StructuralElement :=
  match b with
  | [] => []
  | p :: b' => render_para start p :: render_from (para_end start p) b'
  end.

(** The service: the document and the batches of requests sent to it. *)
Record service : Type := { doc : body; sent : list (list request) }.

(** [documents().get(documentId=...).execute()]: the section break that
    opens the body, then the paragraphs. *)
Definition get (sv : service) : list StructuralElement :=
  {| startIndex := None; paragraph := None |} :: render_from 1 (doc sv).

(** [documents().batchUpdate(documentId=..., body={'requests': rs}).execute()] *)
Definition batchUpdate (rs : list request) (sv : service)
    : result unit * service :=
  match apply_requests (doc sv) rs with
  | Some b => (ok tt, {| doc := b; sent := sent sv ++ [rs] |})
  | None =>
      (raise HttpError (s "Invalid requests"),
       {| doc := doc sv; sent := sent sv ++ [rs] |})
  end.

End Docs.

(** ** [archive_location] *)

(** The source returns [None] on both paths; the outcome is the line it
    prints: "Location already exists in the document. Skipping..." or
    "Data appended successfully." *)
Inductive outcome : Type :=
  | SkippedDuplicate
  | Appended.

Definition archive_location (url : str) (lat lon : Q) (country state : str)
    (sv : Docs.service) : result outcome * Docs.service :=
  (* Check if the location already exists *)
  if location_exists_in_doc (Docs.get sv) lat lon url
  then (ok SkippedDuplicate, sv)
  else
    (* Retrieve the current document content *)
    let doc_content := Docs.get sv in
    let requests := archive_requests doc_content url lat lon country state in
    (* Execute the requests to update the document *)
    match Docs.batchUpdate requests sv with
    | (inl e, sv') => (inl e, sv')
    | (inr _, sv') => (ok Appended, sv')
    end.

(** ** Vocabulary of the statements *)

(** A run of one or more decimal digits. *)
Definition all_digits (ds : str) : bool :=
  (match ds with [] => false | _ => true end && forallb is_digit ds)%bool.

(** The text [-?\d+\.\d+] denotes: sign, integer digits, point, fraction
    digits. *)
Definition numeral (neg : bool) (ip fp : str) : str :=
  (if neg then ["-"%char] else []) ++ ip ++ "."%char :: fp.

(** The text starts with a number written with a decimal fraction: an
    optional minus sign, digits, a point and a digit. *)
Definition starts_decimal (t : str) : bool :=
  let t1 :=
    match t with
    | c :: t' => if Ascii.eqb c "-" then t' else t
    | [] => []
    end in
  let '(ds, r) := span_digits t1 in
  match ds, r with
  | _ :: _, p :: d :: _ => (Ascii.eqb p "." && is_digit d)%bool
  | _, _ => false
  end.

(** Wherever [marker] stands in [url], the number that follows it is not
    written with a decimal fraction. *)
Fixpoint no_decimal_after (marker url : str) : bool :=
  match url with
  | [] => true
  | _ :: url' =>
      ((if starts_with marker url
        then negb (starts_decimal (skipn (length marker) url))
        else true)
       && no_decimal_after marker url')%bool
  end.

(** [p] has no match that starts at one of the first [n] positions of [t]. *)
Fixpoint no_match_before (p : pattern) (t : str) (n : nat) : bool :=
  match n, t with
  | S n', _ :: t' =>
      match match_here p t [] [] with
      | Some _ => false
      | None => no_match_before p t' n'
      end
  | S _, [] => match match_here p t [] [] with Some _ => false | None => true end
  | O, _ => true
  end.

(** The groups of the first pattern of [ps] that matches somewhere in
    [url], before any conversion to [float]. *)
Fixpoint first_structural_match (ps : list pattern) (url : str)
    : option (list str) :=
  match ps with
  | p :: ps' =>
      match search p url with
      | Some m => Some m
      | None => first_structural_match ps' url
      end
  | [] => None
  end.

(** The text of a paragraph as the program reads it: with the newline
    that ends it. *)
Definition rendered_text (p : Docs.para) : str := Docs.ptext p ++ [newline].

Definition is_normal_text (st : named_style) : bool :=
  match st with NORMAL_TEXT => true | _ => false end.

(** A NORMAL_TEXT paragraph that holds the coordinate text of [(lat, lon)]. *)
Definition coordinate_paragraph (lat lon : Q) (p : Docs.para) : bool :=
  (is_normal_text (Docs.pstyle p)
   && contains (search_text lat lon) (rendered_text p))%bool.

(** A paragraph whose trimmed text is [label]. *)
Definition is_header (label : str) (p : Docs.para) : bool :=
  str_eqb (strip (rendered_text p)) label.

(** The requests that add the line [x] at index [i] with style [st]. *)
Definition label_step (h : Z * str * named_style) : list request :=
  let '(i, x, st) := h in
  [InsertText i (x ++ [newline]); UpdateParagraphStyle i (i + len x + 1) st].

(** The three requests that add the coordinate line at index [ci]. *)
Definition coord_step (ci : Z) (lat lon : Q) (url : str) : list request :=
  [InsertText ci (coord_text lat lon);
   UpdateTextStyle ci (ci + len (strip (coord_text lat lon))) url;
   UpdateParagraphStyle ci (ci + len (coord_text lat lon)) NORMAL_TEXT].

(** The paragraph of an archived coordinate. *)
Definition coordinate_line (lat lon : Q) : Docs.para :=
  {| Docs.pstyle := NORMAL_TEXT; Docs.ptext := search_text lat lon |}.

(** Position of the first paragraph whose text is [x]. *)
Fixpoint line_index (x : str) (b : Docs.body) : option nat :=
  match b with
  | [] => None
  | p :: b' =>
      if str_eqb (Docs.ptext p) x then Some O
      else option_map S (line_index x b')
  end.

Definition has_type (tag : str) (c : component) : bool := mem tag (types c).

(** The first, and the last, component of [comps] whose types include
    [tag]. *)
Definition first_with (tag : str) (comps : list component) : option component :=
  find (has_type tag) comps.

Definition last_with (tag : str) (comps : list component) : option component :=
  find (has_type tag) (rev comps).

(** A reply with HTTP status [code] whose body has the status ["OK"] and
    the results [rs]. *)
Definition ok_reply (code : Z) (rs : list geocode_result) : http_reply :=
  Reply code (Some {| status := Some (s "OK"); results := Some rs |}).

Definition starts_with_digit (t : str) : bool :=
  match t with
  | c :: _ => is_digit c
  | [] => false
  end.

(** What a pattern consumes.  [Run p m acc gs r]: the items of [p] take
    exactly the text [m], starting with [acc] consumed in the group in
    progress and the groups [gs] closed, and end with the groups [r]. *)
Inductive Run : pattern -> str -> str -> list str -> list str -> Prop :=
  | Run_nil acc gs : Run [] [] acc gs gs
  | Run_one a c p m acc gs r :
      accepts a c = true -> Run p m (acc ++ [c]) gs r ->
      Run (One a :: p) (c :: m) acc gs r
  | Run_opt_some a c p m acc gs r :
      accepts a c = true -> Run p m (acc ++ [c]) gs r ->
      Run (Opt a :: p) (c :: m) acc gs r
  | Run_opt_none a p m acc gs r :
      Run p m acc gs r -> Run (Opt a :: p) m acc gs r
  | Run_plus a ds p m acc gs r :
      ds <> [] -> Forall (fun c => accepts a c = true) ds ->
      Run p m (acc ++ ds) gs r ->
      Run (Plus a :: p) (ds ++ m) acc gs r
  | Run_open p m acc gs r :
      Run p m [] gs r -> Run (GOpen :: p) m acc gs r
  | Run_close p m acc gs r :
      Run p m [] (gs ++ [acc]) r -> Run (GClose :: p) m acc gs r.

(** The text [rest] does not start with a character that [a] accepts. *)
Definition head_rejected (a : atom) (rest : str) : Prop :=
  match rest with
  | c :: _ => accepts a c = false
  | [] => True
  end.

(** The text [t] does not start with white space. *)
Definition no_space_at_head (t : str) : Prop :=
  forall c, hd_error t = Some c -> is_space c = false.

Definition no_newline (t : str) : Prop := ~ In newline t.

(** The characters of a formatted number. *)
Definition coord_char (c : ascii) : bool :=
  (is_digit c || Ascii.eqb c "-" || Ascii.eqb c ".")%bool.

(** A request that changes no text and no paragraph style. *)
Definition is_text_style (r : request) : Prop :=
  match r with UpdateTextStyle _ _ _ => True | _ => False end.

(** No paragraph that holds [x] is NORMAL_TEXT. *)
Definition holders_not_normal (x : str) (b : Docs.body) : Prop :=
  Forall (fun p => contains x (rendered_text p) = true ->
                   is_normal_text (Docs.pstyle p) = false) b.

(** ** Replies and documents of the examples *)

Definition two_countries : geocode_result :=
  {| address_components :=
       [ {| types := [s "country"; s "political"]; long_name := s "France" |};
         {| types := [s "administrative_area_level_1"; s "political"];
            long_name := s "Bavaria" |};
         {| types := [s "country"; s "political"]; long_name := s "Germany" |} ] |}.

Definition country_only : geocode_result :=
  {| address_components :=
       [ {| types := [s "locality"; s "political"]; long_name := s "Monaco" |};
         {| types := [s "country"; s "political"]; long_name := s "Monaco" |} ] |}.

Definition over_limit_reply : http_reply :=
  Reply 200 (Some {| status := Some (s "OVER_QUERY_LIMIT"); results := Some [] |}).

Definition empty_document : Docs.service :=
  {| Docs.doc := [ {| Docs.pstyle := NORMAL_TEXT; Docs.ptext := [] |} ];
     Docs.sent := [] |}.

Definition after_first_archive : Docs.service :=
  snd (archive_location (s "https://www.google.com/maps/@37.774900,-122.419400,3a")
         37.7749 (-122.4194) (s "United States") (s "California") empty_document).

Definition headed_document : Docs.service :=
  {| Docs.doc :=
       [ {| Docs.pstyle := HEADING_1; Docs.ptext := s "United States" |};
         {| Docs.pstyle := HEADING_2; Docs.ptext := s "California" |};
         {| Docs.pstyle := NORMAL_TEXT; Docs.ptext := [] |} ];
     Docs.sent := [] |}.


Definition punjab_document : Docs.service :=
  {| Docs.doc :=
       [ {| Docs.pstyle := HEADING_1; Docs.ptext := s "India" |};
         {| Docs.pstyle := HEADING_2; Docs.ptext := s "Punjab" |};
         {| Docs.pstyle := NORMAL_TEXT; Docs.ptext := s "30.900000, 75.850000" |};
         {| Docs.pstyle := NORMAL_TEXT; Docs.ptext := [] |} ];
     Docs.sent := [] |}.

(** A string without newline, by cases on its characters. *)
Ltac no_newline_tac :=
  let H := fresh in
  intros H; repeat (destruct H as [H|H]; [discriminate H|]); exact H.

(** ** The binary64 value of a number *)

(** The binary64 number nearest to [x], ties to the even significand: 53
    bits of significand at the exponent of [x], and at the exponent -1022
    below it (subnormal numbers).  A number too large for binary64, which
    Python turns into an infinity, is outside this function. *)
Definition binary64 (x : Q) : Q :=
  let n := Z.abs (Qnum x) in
  let d := Zpos (Qden x) in
  if n =? 0 then 0%Q
  else
    (* e: the exponent of x, 2^e <= |x| < 2^(e+1), not below -1022 *)
    let e0 := Z.log2 n - Z.log2 d in
    let reached := if 0 <=? e0 then d * 2 ^ e0 <=? n else d <=? n * 2 ^ (- e0) in
    let e := Z.max (if reached then e0 else e0 - 1) (-1022) in
    (* k: the exponent of the last bit of the significand *)
    let k := e - 52 in
    let v :=
      if 0 <=? k
      then Qmake (round_half_even n (Z.to_pos (d * 2 ^ k)) * 2 ^ k) 1
      else Qmake (round_half_even (n * 2 ^ (- k)) (Qden x)) (Z.to_pos (2 ^ (- k))) in
    if Qnum x <? 0 then Qopp v else v.

(** The largest binary64 number, (2^53 - 1) * 2^971. *)
Definition max_binary64 : Q := Qmake ((2 ^ 53 - 1) * 2 ^ 971) 1.

(** The binary64 value of [x] is a finite number other than zero: the
    floats on which [Q] and the program agree whatever the sign written in
    the URL (a zero written with a minus sign is the negative zero in
    Python). *)
Definition finite_nonzero (x : Q) : bool :=
  (negb (Qnum (binary64 x) =? 0)
   && Qle_bool (Qabs (binary64 x)) max_binary64)%bool.

(** ** The two entry points *)

(** What the entry points write on standard output, line by line.  The
    numbers of a line are kept as numbers: the text [str(float)] makes of
    them is not modelled. *)
Inductive line : Type :=
  | Waiting_for_URL            (* "Waiting for a Google Maps URL to be copied to the clipboard..." *)
  | Press_your_hotkey          (* "Press your custom hotkey to archive the current Street View location." *)
  | Failed_to_get_URL (msg : str)   (* f"Failed to get URL from browser: {e}" *)
  | Processing_URL (url : str)      (* f"\nProcessing URL: {url}" *)
  | Extracted_coordinates (lat lon : Q)   (* f"Extracted coordinates: {lat}, {lon}" *)
  | Location (state country : str)        (* f"Location: {state}, {country}" *)
  | Location_already_exists    (* "Location already exists in the document. Skipping..." *)
  | Data_appended              (* "Data appended successfully." *)
  | Successfully_archived      (* "Successfully archived location!" *)
  | Error (msg : str)          (* f"Error: {str(e)}" *)
  | No_valid_URL.              (* "No valid Google Maps URL found in the active tab." *)

(** The line [archive_location] prints on each of its two paths. *)
Definition outcome_line (o : outcome) : line :=
  match o with
  | SkippedDuplicate => Location_already_exists
  | Appended => Data_appended
  end.

(** What the program acts on: the document service, and the geocoding
    service, of which the coordinates of the requests sent are recorded. *)
Record world : Type :=
  { docs : Docs.service; geocoded : list (Q * Q) }.

(** ["google.com/maps"], the marker both entry points look for. *)
Definition maps_marker : str := s "google.com/maps".

(** The [try] block the two [main] functions share: extraction, resolution,
    archiving, every exception caught and printed.  The pair the program
    holds after [float(...)] is the pair of binary64 values of the two
    numbers extracted.  [geocode lat lon] is the reply of the geocoding
    service to the request for [(lat, lon)]. *)
Definition process_url (geocode : Q -> Q -> http_reply) (url : str) (w : world)
    : list line * world :=
  match extract_coordinates url with
  | inl e => ([Processing_URL url; Error (exn_msg e)], w)
  | inr (lat_text, lon_text) =>
      let lat := binary64 lat_text in
      let lon := binary64 lon_text in
      let w1 := {| docs := docs w; geocoded := geocoded w ++ [(lat, lon)] |} in
      match get_location_info (geocode lat lon) with
      | inl e =>
          ([Processing_URL url; Extracted_coordinates lat lon; Error (exn_msg e)],
           w1)
      | inr (country, state) =>
          match archive_location url lat lon country state (docs w1) with
          | (inl e, sv) =>
              ([Processing_URL url; Extracted_coordinates lat lon;
                Location state country; Error (exn_msg e)],
               {| docs := sv; geocoded := geocoded w1 |})
          | (inr o, sv) =>
              ([Processing_URL url; Extracted_coordinates lat lon;
                Location state country; outcome_line o; Successfully_archived],
               {| docs := sv; geocoded := geocoded w1 |})
          end
      end
  end.

(** [get_active_browser_url] of [hotkey_public.py]: the URL of the active
    tab, or [None] after a printed line when the script raised. *)
Definition get_active_browser_url (script : result str) : list line * option str :=
  match script with
  | inr url => ([], Some url)
  | inl e => ([Failed_to_get_URL (exn_msg e)], None)
  end.

(** [main] of [hotkey_public.py], once the archiver is built. *)
Definition hotkey_main (geocode : Q -> Q -> http_reply) (script : result str)
    (w : world) : list line * world :=
  let '(printed, url) := get_active_browser_url script in
  match url with
  | Some (c :: u) =>
      (* if url and "google.com/maps" in url *)
      if contains maps_marker (c :: u)
      then let '(ls, w') := process_url geocode (c :: u) w in
           (Press_your_hotkey :: printed ++ ls, w')
      else (Press_your_hotkey :: printed ++ [No_valid_URL], w)
  | _ => (Press_your_hotkey :: printed ++ [No_valid_URL], w)
  end.

(** The loop of [main] of [street_view_archiver_public.py] on the successive
    contents of the clipboard, one per turn.  [last_url] stays [None], so
    [url != last_url] holds on every turn.  The loop ends, by [break], on the
    first content that holds the marker; [None] is a loop still polling when
    the contents given are used up. *)
Fixpoint clipboard_loop (geocode : Q -> Q -> http_reply) (clipboard : list str)
    (w : world) : option (list line * world) :=
  match clipboard with
  | [] => None
  | pasted :: later =>
      let url := strip pasted in
      if contains maps_marker url
      then Some (process_url geocode url w)
      else clipboard_loop geocode later w
  end.

(** [main] of [street_view_archiver_public.py], once the archiver is built. *)
Definition clipboard_main (geocode : Q -> Q -> http_reply) (clipboard : list str)
    (w : world) : option (list line * world) :=
  match clipboard_loop geocode clipboard w with
  | Some (ls, w') => Some (Waiting_for_URL :: ls, w')
  | None => None
  end.

(** ** More vocabulary *)

(** The number of text insertions of a batch. *)
Definition count_inserts (rs : list request) : nat :=
  length (filter (fun r => match r with InsertText _ _ => true | _ => false end) rs).

(** The number of headers the search did not find. *)
Definition missing_headers (found : option Z * option Z) : nat :=
  (match fst found with None => 1 | Some _ => 0 end
   + match snd found with None => 1 | Some _ => 0 end)%nat.

(** A geocoding reply that names [country] and [state]. *)
Definition located_reply (country state : str) : http_reply :=
  ok_reply 200
    [ {| address_components :=
           [ {| types := [s "administrative_area_level_1"; s "political"];
                long_name := state |};
             {| types := [s "country"; s "political"]; long_name := country |} ] |} ].

(** * Properties *)

(** ** The matcher *)

Section Matcher.

Lemma plus_loop_sound (A : Type) (a : atom) (k : str -> str -> option A)
    (P : str -> str -> A -> Prop) :
  (forall t acc r, k t acc = Some r -> P t acc r) ->
  forall t acc r, plus_loop a k t acc = Some r ->
  exists ds t', t = ds ++ t' /\ ds <> [] /\
    Forall (fun c => accepts a c = true) ds /\ P t' (acc ++ ds) r.
Proof.
  intros Hk t; induction t as [|c t IH]; intros acc r H; simpl in H.
  - discriminate.
  - destruct (accepts a c) eqn:Hc; [|discriminate].
    destruct (plus_loop a k t (acc ++ [c])) as [r'|] eqn:Hl.
    + injection H as <-.
      destruct (IH _ _ Hl) as (ds & t' & -> & _ & Hds & HP).
      exists (c :: ds), t'. repeat split; auto; try discriminate.
      now rewrite <- app_assoc in HP.
    + exists [c], t. repeat split; auto; try discriminate.
  Qed.

Lemma match_here_sound (p : pattern) :
  forall t acc gs r, match_here p t acc gs = Some r ->
  exists m rest, t = m ++ rest /\ Run p m acc gs r.
Proof.
  induction p as [|it p IH]; intros t acc gs r H; simpl in H.
  - injection H as <-. exists [], t. split; [reflexivity|constructor].
  - destruct it as [a|a|a| |].
    + destruct t as [|c t]; [discriminate|].
      destruct (accepts a c) eqn:Hc; [|discriminate].
      destruct (IH _ _ _ _ H) as (m & rest & -> & HR).
      exists (c :: m), rest. split; [reflexivity|now constructor].
    + assert (Hnone : forall r0, match_here p t acc gs = Some r0 ->
                exists m rest, t = m ++ rest /\ Run (Opt a :: p) m acc gs r0).
      { intros r0 H0. destruct (IH _ _ _ _ H0) as (m & rest & -> & HR).
        exists m, rest. split; [reflexivity|now apply Run_opt_none]. }
      destruct t as [|c t]; [now apply Hnone|].
      destruct (accepts a c) eqn:Hc; [|now apply Hnone].
      destruct (match_here p t (acc ++ [c]) gs) as [r'|] eqn:Hs;
        [|now apply Hnone].
      injection H as <-.
      destruct (IH _ _ _ _ Hs) as (m & rest & -> & HR).
      exists (c :: m), rest. split; [reflexivity|now apply Run_opt_some].
    + apply (plus_loop_sound _ a _
               (fun t' acc' r => exists m rest, t' = m ++ rest /\ Run p m acc' gs r))
        in H; [|intros; now apply IH].
      destruct H as (ds & t' & -> & Hne & Hds & m & rest & -> & HR).
      exists (ds ++ m), rest. split; [now rewrite app_assoc|now constructor].
    + destruct (IH _ _ _ _ H) as (m & rest & -> & HR).
      exists m, rest. split; [reflexivity|now constructor].
    + destruct (IH _ _ _ _ H) as (m & rest & -> & HR).
      exists m, rest. split; [reflexivity|now constructor].
Qed.

(** A greedy [a+] whose run is followed by a character that [a] rejects
    takes the whole run. *)
Lemma plus_loop_greedy (A : Type) (a : atom) (k : str -> str -> option A)
    (ds rest : str) (r : A) :
  ds <> [] -> Forall (fun c => accepts a c = true) ds ->
  head_rejected a rest ->
  forall acc, k rest (acc ++ ds) = Some r ->
  plus_loop a k (ds ++ rest) acc = Some r.
Proof.
  intros Hne Hds Hrest; induction Hds as [|c ds Hc Hds IH]; [congruence|].
  intros acc Hk. simpl. rewrite Hc.
  destruct ds as [|d ds].
  - simpl. replace (plus_loop a k rest (acc ++ [c])) with (@None A); [exact Hk|].
    destruct rest as [|e rest]; simpl in *; [reflexivity|now rewrite Hrest].
  - rewrite (IH ltac:(discriminate) (acc ++ [c])); [reflexivity|].
    now rewrite <- app_assoc.
Qed.

Lemma search_hit (p : pattern) (t : str) (m : list str) :
  match_here p t [] [] = Some m -> search p t = Some m.
Proof. intros H. destruct t; simpl; now rewrite H. Qed.

Lemma search_skip (p : pattern) (pre t : str) :
  no_match_before p (pre ++ t) (length pre) = true ->
  search p (pre ++ t) = search p t.
Proof.
  induction pre as [|c pre IH]; intros H; [reflexivity|].
  simpl in H. simpl search.
  change ((c :: pre) ++ t) with (c :: pre ++ t) in *.
  destruct (match_here p (c :: pre ++ t) [] []); [discriminate|auto].
Qed.

Lemma search_sound (p : pattern) (t : str) (m : list str) :
  search p t = Some m ->
  exists pre mid post, t = pre ++ mid ++ post /\ Run p mid [] [] m.
Proof.
  induction t as [|c t IH]; simpl; intros H.
  - destruct (match_here p [] [] []) eqn:Hm; [|discriminate].
    injection H as ->. apply match_here_sound in Hm.
    destruct Hm as (mid & post & E & HR). now exists [], mid, post.
  - destruct (match_here p (c :: t) [] []) eqn:Hm.
    + injection H as ->. apply match_here_sound in Hm.
      destruct Hm as (mid & post & E & HR). now exists [], mid, post.
    + destruct (IH H) as (pre & mid & post & -> & HR).
      now exists (c :: pre), mid, post.
Qed.

Lemma digit_eqb (c d : ascii) :
  is_digit c = true -> is_digit d = false -> Ascii.eqb d c = false.
Proof.
  intros Hc Hd. destruct (Ascii.eqb_spec d c) as [->|]; congruence.
Qed.

Lemma digit_not_space (c : ascii) : is_digit c = true -> is_space c = false.
Proof.
  unfold is_digit, ascii_in, is_space. cbv zeta.
  change (N_of_ascii "0") with 48%N. change (N_of_ascii "9") with 57%N.
  generalize (N_of_ascii c); intros n H.
  apply andb_true_iff in H as [H1 H2].
  apply N.leb_le in H1, H2.
  repeat match goal with
  | |- context [N.leb ?a ?b] => destruct (N.leb_spec a b); try lia
  | |- context [N.eqb ?a ?b] => destruct (N.eqb_spec a b); try lia
  end; reflexivity.
Qed.

Lemma all_digits_inv (ds : str) :
  all_digits ds = true ->
  ds <> [] /\ Forall (fun c => is_digit c = true) ds.
Proof.
  unfold all_digits. intros H. apply andb_true_iff in H as [H1 H2].
  split; [destruct ds; [discriminate|discriminate]|].
  now apply Forall_forall, forallb_forall.
Qed.

Lemma all_digits_intro (ds : str) :
  ds <> [] -> Forall (fun c => accepts Digit c = true) ds ->
  all_digits ds = true.
Proof.
  intros Hne H. unfold all_digits. apply andb_true_iff. split.
  - destruct ds; congruence.
  - apply forallb_forall, Forall_forall, H.
Qed.

(** Forward steps of the matcher, one per kind of item. *)
Lemma match_here_plus (a : atom) (p : pattern) (ds rest acc : str)
    (gs r : list str) :
  ds <> [] -> Forall (fun c => accepts a c = true) ds ->
  head_rejected a rest ->
  match_here p rest (acc ++ ds) gs = Some r ->
  match_here (Plus a :: p) (ds ++ rest) acc gs = Some r.
Proof.
  intros Hne Hds Hrest Hk.
  change (plus_loop a (fun t' acc' => match_here p t' acc' gs) (ds ++ rest) acc
          = Some r).
  now apply plus_loop_greedy.
Qed.

Lemma match_here_one (a : atom) (c : ascii) (p : pattern) (t acc : str)
    (gs r : list str) :
  accepts a c = true ->
  match_here p t (acc ++ [c]) gs = Some r ->
  match_here (One a :: p) (c :: t) acc gs = Some r.
Proof. intros Hc Hk. simpl. now rewrite Hc. Qed.

Lemma match_here_opt_some (a : atom) (c : ascii) (p : pattern) (t acc : str)
    (gs r : list str) :
  accepts a c = true ->
  match_here p t (acc ++ [c]) gs = Some r ->
  match_here (Opt a :: p) (c :: t) acc gs = Some r.
Proof. intros Hc Hk. simpl. now rewrite Hc, Hk. Qed.

Lemma match_here_opt_none (a : atom) (p : pattern) (t acc : str)
    (gs r : list str) :
  head_rejected a t ->
  match_here p t acc gs = Some r ->
  match_here (Opt a :: p) t acc gs = Some r.
Proof.
  intros Hc Hk. destruct t as [|c t]; simpl in *; [assumption|].
  now rewrite Hc.
Qed.

(** The group [(-?\d+\.\d+)] takes a numeral that no digit follows, and
    captures it. *)
Lemma match_number_group (p : pattern) (neg : bool) (ip fp rest : str)
    (acc : str) (gs r : list str) :
  all_digits ip = true -> all_digits fp = true ->
  starts_with_digit rest = false ->
  match_here p rest [] (gs ++ [numeral neg ip fp]) = Some r ->
  match_here (number_group ++ p) (numeral neg ip fp ++ rest) acc gs = Some r.
Proof.
  intros Hip Hfp Hrest Hk.
  apply all_digits_inv in Hip as [Hip0 Hip], Hfp as [Hfp0 Hfp].
  assert (Hbody : forall acc0, acc0 ++ ip ++ "."%char :: fp = numeral neg ip fp ->
            match_here (Plus Digit :: One (Chr ".") :: Plus Digit :: GClose :: p)
              (ip ++ "."%char :: fp ++ rest) acc0 gs = Some r).
  { intros acc0 Hacc. apply match_here_plus; auto; [reflexivity|].
    apply match_here_one; [reflexivity|].
    apply match_here_plus; auto.
    - destruct rest; simpl in *; auto.
    - change (match_here p rest [] (gs ++ [((acc0 ++ ip) ++ ["."%char]) ++ fp])
              = Some r).
      rewrite <- !app_assoc. simpl. now rewrite Hacc. }
  change (number_group ++ p)
    with (GOpen :: Opt (Chr "-") :: Plus Digit :: One (Chr ".") :: Plus Digit
          :: GClose :: p).
  change (match_here
            (Opt (Chr "-") :: Plus Digit :: One (Chr ".") :: Plus Digit :: GClose :: p)
            (numeral neg ip fp ++ rest) [] gs = Some r).
  unfold numeral in *. rewrite <- !app_assoc. destruct neg.
  - apply match_here_opt_some; [reflexivity|]. now apply Hbody.
  - apply match_here_opt_none; [|now apply Hbody].
    destruct ip as [|c ip]; [congruence|].
    change (Ascii.eqb "-" c = false).
    apply digit_eqb; [now inversion Hip|reflexivity].
Qed.

Lemma Run_one_inv (c : ascii) (p : pattern) (m acc : str) (gs r : list str) :
  Run (One (Chr c) :: p) m acc gs r ->
  exists m', m = c :: m' /\ Run p m' (acc ++ [c]) gs r.
Proof.
  intros H. inversion H; subst. simpl in *.
  match goal with E : Ascii.eqb _ _ = true |- _ => apply Ascii.eqb_eq in E; subst end.
  eauto.
Qed.

Lemma Run_opt_inv (c : ascii) (p : pattern) (m acc : str) (gs r : list str) :
  Run (Opt (Chr c) :: p) m acc gs r ->
  (exists m', m = c :: m' /\ Run p m' (acc ++ [c]) gs r) \/ Run p m acc gs r.
Proof.
  intros H. inversion H; subst; [left|now right]. simpl in *.
  match goal with E : Ascii.eqb _ _ = true |- _ => apply Ascii.eqb_eq in E; subst end.
  eauto.
Qed.

Lemma Run_plus_inv (a : atom) (p : pattern) (m acc : str) (gs r : list str) :
  Run (Plus a :: p) m acc gs r ->
  exists ds m', m = ds ++ m' /\ ds <> [] /\
    Forall (fun c => accepts a c = true) ds /\ Run p m' (acc ++ ds) gs r.
Proof. intros H. inversion H; subst. eauto 8. Qed.

Lemma Run_open_inv (p : pattern) (m acc : str) (gs r : list str) :
  Run (GOpen :: p) m acc gs r -> Run p m [] gs r.
Proof. intros H. now inversion H. Qed.

Lemma Run_close_inv (p : pattern) (m acc : str) (gs r : list str) :
  Run (GClose :: p) m acc gs r -> Run p m [] (gs ++ [acc]) r.
Proof. intros H. now inversion H. Qed.

Lemma Run_nil_inv (m acc : str) (gs r : list str) :
  Run [] m acc gs r -> m = [] /\ r = gs.
Proof. intros H. now inversion H. Qed.

(** What the group captures is a numeral. *)
Lemma Run_number_group (p : pattern) (m acc : str) (gs r : list str) :
  Run (number_group ++ p) m acc gs r ->
  exists neg ip fp m', m = numeral neg ip fp ++ m' /\
    all_digits ip = true /\ all_digits fp = true /\
    Run p m' [] (gs ++ [numeral neg ip fp]) r.
Proof.
  intros H. apply Run_open_inv in H.
  assert (Hbody : forall (neg : bool) m0,
            Run ([Plus Digit; One (Chr "."); Plus Digit; GClose] ++ p) m0
                (if neg then ["-"%char] else []) gs r ->
            exists ip fp m', m0 = ip ++ "."%char :: fp ++ m' /\
              all_digits ip = true /\ all_digits fp = true /\
              Run p m' [] (gs ++ [numeral neg ip fp]) r).
  { intros neg m0 H0.
    apply Run_plus_inv in H0 as (ip & m1 & -> & Hne & Hds & H0).
    apply Run_one_inv in H0 as (m2 & -> & H0).
    apply Run_plus_inv in H0 as (fp & m3 & -> & Hne' & Hds' & H0).
    apply Run_close_inv in H0.
    exists ip, fp, m3. repeat split; auto using all_digits_intro.
    unfold numeral. rewrite <- !app_assoc in H0. exact H0. }
  apply Run_opt_inv in H as [(m' & -> & H)|H].
  - destruct (Hbody true m' H) as (ip & fp & m'' & -> & Hip & Hfp & HR).
    exists true, ip, fp, m''. repeat split; auto.
    unfold numeral. simpl. now rewrite <- app_assoc.
  - destruct (Hbody false m H) as (ip & fp & m'' & -> & Hip & Hfp & HR).
    exists false, ip, fp, m''. repeat split; auto.
    unfold numeral. simpl. now rewrite <- app_assoc.
Qed.

(** The text the [@] pattern takes and the groups it captures. *)
Lemma Run_at_pattern (m : str) (r : list str) :
  Run at_pattern m [] [] r ->
  exists n1 i1 f1 n2 i2 f2,
    m = "@"%char :: numeral n1 i1 f1 ++ ","%char :: numeral n2 i2 f2 /\
    r = [numeral n1 i1 f1; numeral n2 i2 f2] /\
    all_digits i1 = true /\ all_digits f1 = true /\
    all_digits i2 = true /\ all_digits f2 = true.
Proof.
  intros H. apply Run_one_inv in H as (m1 & -> & H).
  apply (Run_number_group ([One (Chr ",")] ++ number_group)) in H
    as (n1 & i1 & f1 & m2 & -> & Hi1 & Hf1 & H).
  apply Run_one_inv in H as (m3 & -> & H).
  apply (Run_number_group []) in H as (n2 & i2 & f2 & m4 & -> & Hi2 & Hf2 & H).
  apply Run_nil_inv in H as [-> ->].
  exists n1, i1, f1, n2, i2, f2. rewrite app_nil_r. auto 8.
Qed.

(** The same for the [!3d ... !4d] pattern. *)
Lemma Run_pin_pattern (m : str) (r : list str) :
  Run pin_pattern m [] [] r ->
  exists n1 i1 f1 n2 i2 f2,
    m = s "!3d" ++ numeral n1 i1 f1 ++ s "!4d" ++ numeral n2 i2 f2 /\
    r = [numeral n1 i1 f1; numeral n2 i2 f2] /\
    all_digits i1 = true /\ all_digits f1 = true /\
    all_digits i2 = true /\ all_digits f2 = true.
Proof.
  intros H. do 3 apply Run_one_inv in H as (? & -> & H).
  apply (Run_number_group
           ([One (Chr "!"); One (Chr "4"); One (Chr "d")] ++ number_group)) in H
    as (n1 & i1 & f1 & m2 & -> & Hi1 & Hf1 & H).
  do 3 apply Run_one_inv in H as (? & -> & H).
  apply (Run_number_group []) in H as (n2 & i2 & f2 & m4 & -> & Hi2 & Hf2 & H).
  apply Run_nil_inv in H as [-> ->].
  exists n1, i1, f1, n2, i2, f2. rewrite app_nil_r. auto 8.
Qed.

(** The [@] pattern matches at an [@] followed by two numerals with a
    comma between them, the second one not followed by a digit. *)
Lemma match_at_pattern (n1 n2 : bool) (i1 f1 i2 f2 post : str) :
  all_digits i1 = true -> all_digits f1 = true ->
  all_digits i2 = true -> all_digits f2 = true ->
  starts_with_digit post = false ->
  match_here at_pattern
    ("@"%char :: numeral n1 i1 f1 ++ ","%char :: numeral n2 i2 f2 ++ post) [] []
  = Some [numeral n1 i1 f1; numeral n2 i2 f2].
Proof.
  intros Hi1 Hf1 Hi2 Hf2 Hpost.
  apply match_here_one; [reflexivity|].
  apply (match_number_group ([One (Chr ",")] ++ number_group)); auto.
  apply match_here_one; [reflexivity|].
  apply (match_number_group []); auto.
Qed.

End Matcher.

(** ** Stripping and [float()] on numerals *)

Section Numerals.

Lemma lstrip_id (t : str) : no_space_at_head t -> lstrip t = t.
Proof.
  destruct t as [|c t]; intros H; [reflexivity|].
  simpl. now rewrite (H c eq_refl).
Qed.

Lemma strip_id (t : str) :
  no_space_at_head t -> no_space_at_head (rev t) -> strip t = t.
Proof.
  intros Hh Hl. unfold strip, rstrip.
  now rewrite (lstrip_id (rev t) Hl), rev_involutive, lstrip_id.
Qed.

(** A line loses exactly its newline. *)
Lemma strip_line (t : str) :
  no_space_at_head t -> no_space_at_head (rev t) -> strip (t ++ [newline]) = t.
Proof.
  intros Hh Hl. unfold strip, rstrip. rewrite rev_app_distr. simpl.
  now rewrite (lstrip_id (rev t) Hl), rev_involutive, lstrip_id.
Qed.

Lemma span_digits_app (ds rest : str) :
  Forall (fun c => is_digit c = true) ds -> starts_with_digit rest = false ->
  span_digits (ds ++ rest) = (ds, rest).
Proof.
  intros Hds Hrest; induction Hds as [|c ds Hc Hds IH].
  - destruct rest as [|c rest]; [reflexivity|].
    unfold starts_with_digit in Hrest. cbn [app span_digits]. now rewrite Hrest.
  - cbn [app span_digits]. now rewrite Hc, IH.
Qed.

Lemma numeral_head (neg : bool) (ip fp : str) :
  all_digits ip = true -> no_space_at_head (numeral neg ip fp).
Proof.
  intros Hip c. apply all_digits_inv in Hip as [Hne Hip].
  unfold numeral. destruct neg; simpl.
  - intros [= <-]. reflexivity.
  - destruct ip as [|d ip]; [congruence|]. simpl. intros [= <-].
    apply digit_not_space. now inversion Hip.
Qed.

Lemma numeral_last (neg : bool) (ip fp : str) :
  all_digits fp = true -> no_space_at_head (rev (numeral neg ip fp)).
Proof.
  intros Hfp c. apply all_digits_inv in Hfp as [Hne Hfp].
  unfold numeral. rewrite !rev_app_distr. simpl. rewrite <- !app_assoc.
  destruct (rev fp) as [|d l] eqn:E.
  - apply (f_equal (@rev ascii)) in E. rewrite rev_involutive in E. now subst.
  - simpl. intros [= <-]. apply digit_not_space.
    rewrite Forall_forall in Hfp. apply Hfp, in_rev. rewrite E. now left.
Qed.

(** [float] never fails on a numeral, and gives its value. *)
Lemma py_float_numeral (neg : bool) (ip fp : str) :
  all_digits ip = true -> all_digits fp = true ->
  py_float (numeral neg ip fp) = Some (decimal_value neg ip fp).
Proof.
  intros Hip Hfp. unfold py_float.
  rewrite strip_id by auto using numeral_head, numeral_last.
  apply all_digits_inv in Hip as [Hip0 Hip], Hfp as [Hfp0 Hfp].
  assert (Hrest : span_digits (ip ++ "."%char :: fp) = (ip, "."%char :: fp))
    by now apply span_digits_app.
  assert (Hfrac : span_digits fp = (fp, [])).
  { rewrite <- (app_nil_r fp) at 1. now apply span_digits_app. }
  assert (Hgo : forall b,
    (let '(ip0, r) := span_digits (ip ++ "."%char :: fp) in
     match r with
     | [] => match ip0 with [] => None | _ => Some (decimal_value b ip0 []) end
     | c :: r' =>
         if Ascii.eqb c "." then
           let '(fp0, r'') := span_digits r' in
           match r'', ip0 ++ fp0 with
           | [], _ :: _ => Some (decimal_value b ip0 fp0)
           | _, _ => None
           end
         else None
     end) = Some (decimal_value b ip fp)).
  { intros b. rewrite Hrest. simpl. rewrite Hfrac.
    destruct ip; [congruence|reflexivity]. }
  unfold numeral. destruct neg.
  - simpl app. cbv iota beta. simpl (Ascii.eqb _ _). apply Hgo.
  - destruct ip as [|c ip]; [congruence|]. simpl app.
    assert (Hc : is_digit c = true) by now inversion Hip.
    cbv iota beta.
    rewrite (Ascii.eqb_sym c "-"), (Ascii.eqb_sym c "+").
    rewrite !(digit_eqb c) by (assumption || reflexivity).
    apply Hgo.
Qed.

End Numerals.

(** ** [extract_coordinates] *)

Section Extraction.

Lemma starts_decimal_numeral (neg : bool) (ip fp b : str) :
  all_digits ip = true -> all_digits fp = true ->
  starts_decimal (numeral neg ip fp ++ b) = true.
Proof.
  intros Hip Hfp.
  apply all_digits_inv in Hip as [Hip0 Hip], Hfp as [Hfp0 Hfp].
  destruct fp as [|d fp]; [congruence|].
  assert (Hd : is_digit d = true) by now inversion Hfp.
  assert (Hspan : span_digits (ip ++ "."%char :: d :: fp ++ b)
                  = (ip, "."%char :: d :: fp ++ b))
    by now apply span_digits_app.
  assert (Hgo : (let '(ds, r) := span_digits (ip ++ "."%char :: d :: fp ++ b) in
                 match ds, r with
                 | _ :: _, p :: d0 :: _ => (Ascii.eqb p "." && is_digit d0)%bool
                 | _, _ => false
                 end) = true).
  { rewrite Hspan. destruct ip; [congruence|]. now rewrite Hd. }
  unfold starts_decimal, numeral. rewrite <- !app_assoc.
  destruct neg.
  - exact Hgo.
  - destruct ip as [|c ip]; [congruence|].
    assert (Hc : is_digit c = true) by now inversion Hip.
    cbn [app]. rewrite (Ascii.eqb_sym c "-").
    rewrite (digit_eqb c) by (assumption || reflexivity).
    exact Hgo.
Qed.

Lemma no_decimal_after_app (marker a t : str) :
  no_decimal_after marker (a ++ t) = true -> no_decimal_after marker t = true.
Proof.
  induction a as [|c a IH]; [auto|].
  cbn [app no_decimal_after]. intros H.
  apply andb_true_iff in H as [_ H]. auto.
Qed.

Lemma starts_with_prefix (x t : str) : starts_with x (x ++ t) = true.
Proof.
  induction x as [|c x IH]; [reflexivity|].
  cbn [app starts_with]. now rewrite Ascii.eqb_refl.
Qed.

Lemma skipn_prefix (x t : str) : skipn (length x) (x ++ t) = t.
Proof. induction x as [|c x IH]; [reflexivity|exact IH]. Qed.

(** A number with a decimal fraction right after the marker. *)
Lemma no_decimal_after_hit (marker a rest : str) :
  marker <> [] -> starts_decimal rest = true ->
  no_decimal_after marker (a ++ marker ++ rest) = false.
Proof.
  intros Hm Hr.
  destruct (no_decimal_after marker (a ++ marker ++ rest)) eqn:E; [|reflexivity].
  apply no_decimal_after_app in E.
  destruct marker as [|c marker]; [congruence|].
  change ((c :: marker) ++ rest) with (c :: (marker ++ rest)) in E.
  cbn [no_decimal_after] in E.
  change (c :: (marker ++ rest)) with ((c :: marker) ++ rest) in E.
  now rewrite starts_with_prefix, skipn_prefix, Hr in E.
Qed.

(** The groups of a match of one of the two patterns are two numerals,
    and the numerals stand in the URL. *)
Lemma search_patterns_sound (p : pattern) (url : str) (m : list str) :
  In p patterns -> search p url = Some m ->
  exists n1 i1 f1 n2 i2 f2,
    m = [numeral n1 i1 f1; numeral n2 i2 f2] /\
    all_digits i1 = true /\ all_digits f1 = true /\
    all_digits i2 = true /\ all_digits f2 = true /\
    exists a b, url = a ++ numeral n1 i1 f1 ++ b.
Proof.
  intros Hp H. apply search_sound in H as (pre & mid & post & -> & HR).
  destruct Hp as [<-|[<-|[]]].
  - apply Run_at_pattern in HR
      as (n1 & i1 & f1 & n2 & i2 & f2 & -> & -> & H1 & H2 & H3 & H4).
    exists n1, i1, f1, n2, i2, f2. repeat split; auto.
    exists (pre ++ ["@"%char]), (","%char :: numeral n2 i2 f2 ++ post).
    rewrite <- !app_assoc. simpl. now rewrite <- !app_assoc.
  - apply Run_pin_pattern in HR
      as (n1 & i1 & f1 & n2 & i2 & f2 & -> & -> & H1 & H2 & H3 & H4).
    exists n1, i1, f1, n2, i2, f2. repeat split; auto.
    exists (pre ++ s "!3d"), (s "!4d" ++ numeral n2 i2 f2 ++ post).
    now rewrite <- !app_assoc.
Qed.

Lemma try_pattern_numerals (p : pattern) (url : str) (n1 n2 : bool)
    (i1 f1 i2 f2 : str) :
  search p url = Some [numeral n1 i1 f1; numeral n2 i2 f2] ->
  all_digits i1 = true -> all_digits f1 = true ->
  all_digits i2 = true -> all_digits f2 = true ->
  try_pattern p url = Some (ok (decimal_value n1 i1 f1, decimal_value n2 i2 f2)).
Proof.
  intros H H1 H2 H3 H4. unfold try_pattern. rewrite H. simpl.
  now rewrite !py_float_numeral.
Qed.

Lemma try_pattern_no_match (p : pattern) (url : str) :
  search p url = None -> try_pattern p url = None.
Proof. intros H. unfold try_pattern. now rewrite H. Qed.

End Extraction.

(** C3, as stated, fails: a number written with a plus sign, or with no
    digit before the point, parses as a float, and the [@] pattern does not
    match it. *)
Lemma extract_at_signed_form_fails :
  py_float (s "+37.5") = Some (375 # 10) /\
  py_float (s "-.25") = Some (-25 # 100) /\
  search at_pattern (s "https://www.google.com/maps/@+37.5,-.25,3a") = None /\
  extract_coordinates (s "https://www.google.com/maps/@+37.5,-.25,3a")
  = inl (extraction_failure (s "https://www.google.com/maps/@+37.5,-.25,3a")).
Proof. repeat split; vm_compute; reflexivity. Qed.

(** C3, amended.  A URL that holds [@<lat>,<lon>], each number written as an
    optional minus sign, digits, a point and digits, gives exactly the pair
    of the two numbers, whatever the rest of the URL holds, a
    [!3d<lat>!4d<lon>] form included: the [@] pattern is tried first and its
    match is returned.  The occurrence is the first one in the URL that the
    [@] pattern matches, and [<lon>] is the whole number (no digit follows
    it). *)
Theorem extract_at_form_first (pre post : str) (n1 n2 : bool)
    (i1 f1 i2 f2 : str) :
  let url :=
    pre ++ "@"%char :: numeral n1 i1 f1 ++ ","%char :: numeral n2 i2 f2 ++ post in
  all_digits i1 = true -> all_digits f1 = true ->
  all_digits i2 = true -> all_digits f2 = true ->
  starts_with_digit post = false ->
  no_match_before at_pattern url (length pre) = true ->
  search at_pattern url = Some [numeral n1 i1 f1; numeral n2 i2 f2] /\
  extract_coordinates url = ok (decimal_value n1 i1 f1, decimal_value n2 i2 f2).
Proof.
  intros url H1 H2 H3 H4 Hpost Hpre.
  assert (Hs : search at_pattern url = Some [numeral n1 i1 f1; numeral n2 i2 f2]).
  { unfold url. rewrite search_skip by exact Hpre.
    apply search_hit. now apply match_at_pattern. }
  split; [exact Hs|].
  unfold extract_coordinates, patterns, extract_loop.
  now rewrite (try_pattern_numerals _ _ _ _ _ _ _ _ Hs).
Qed.

Lemma extract_at_form_first_witness :
  extract_coordinates
    (s "https://www.google.com/maps/@37.774900,-122.419400,3a,75y/data=!3d1.5!4d2.5")
  = ok (37774900 # 1000000, -122419400 # 1000000).
Proof.
  exact (proj2 (extract_at_form_first (s "https://www.google.com/maps/")
                  (s ",3a,75y/data=!3d1.5!4d2.5") false true
                  (s "37") (s "774900") (s "122") (s "419400")
                  eq_refl eq_refl eq_refl eq_refl eq_refl eq_refl)).
Defined.

(** C7, as stated, fails: the numbers of the URL are returned without any
    check of their range. *)
Lemma extract_out_of_range :
  extract_coordinates (s "https://www.google.com/maps/@91.0,181.0,3a")
  = ok (decimal_value false (s "91") (s "0"), decimal_value false (s "181") (s "0"))
  /\ ~ (Qabs (decimal_value false (s "91") (s "0")) <= 90)%Q
  /\ ~ (Qabs (decimal_value false (s "181") (s "0")) <= 180)%Q.
Proof.
  split; [vm_compute; reflexivity|].
  split; intros H; vm_compute in H; apply H; reflexivity.
Qed.

(** C7, amended.  Whenever [extract_coordinates] returns a pair, its two
    values are the values of the two numerals that one of the two patterns
    captured in the URL: a whole pair, never a part of one, and with no
    bound on the values. *)
Theorem extract_returns_captured_pair (url : str) (lat lon : Q) :
  extract_coordinates url = ok (lat, lon) ->
  exists p n1 i1 f1 n2 i2 f2,
    In p patterns /\
    search p url = Some [numeral n1 i1 f1; numeral n2 i2 f2] /\
    all_digits i1 = true /\ all_digits f1 = true /\
    all_digits i2 = true /\ all_digits f2 = true /\
    lat = decimal_value n1 i1 f1 /\ lon = decimal_value n2 i2 f2.
Proof.
  unfold extract_coordinates, patterns, extract_loop.
  assert (Hone : forall p, In p patterns -> forall r,
            try_pattern p url = Some r -> r = ok (lat, lon) ->
            exists p n1 i1 f1 n2 i2 f2,
              In p patterns /\
              search p url = Some [numeral n1 i1 f1; numeral n2 i2 f2] /\
              all_digits i1 = true /\ all_digits f1 = true /\
              all_digits i2 = true /\ all_digits f2 = true /\
              lat = decimal_value n1 i1 f1 /\ lon = decimal_value n2 i2 f2).
  { intros p Hp r Ht Hr.
    destruct (search p url) as [m|] eqn:Hs;
      [|now rewrite try_pattern_no_match in Ht].
    destruct (search_patterns_sound p url m Hp Hs)
      as (n1 & i1 & f1 & n2 & i2 & f2 & -> & H1 & H2 & H3 & H4 & _).
    rewrite (try_pattern_numerals _ _ _ _ _ _ _ _ Hs) in Ht by assumption.
    injection Ht as <-. injection Hr as <- <-.
    exists p, n1, i1, f1, n2, i2, f2. auto 10. }
  destruct (try_pattern at_pattern url) as [r|] eqn:E1.
  - intros ->. apply (Hone at_pattern (or_introl eq_refl) _ E1 eq_refl).
  - destruct (try_pattern pin_pattern url) as [r|] eqn:E2; [|discriminate].
    intros ->. apply (Hone pin_pattern (or_intror (or_introl eq_refl)) _ E2 eq_refl).
Qed.

Lemma extract_returns_captured_pair_witness :
  exists p n1 i1 f1 n2 i2 f2,
    In p patterns /\
    search p (s "https://www.google.com/maps/@91.0,181.0,3a")
      = Some [numeral n1 i1 f1; numeral n2 i2 f2] /\
    all_digits i1 = true /\ all_digits f1 = true /\
    all_digits i2 = true /\ all_digits f2 = true /\
    decimal_value false (s "91") (s "0") = decimal_value n1 i1 f1 /\
    decimal_value false (s "181") (s "0") = decimal_value n2 i2 f2.
Proof.
  apply (extract_returns_captured_pair
           (s "https://www.google.com/maps/@91.0,181.0,3a")).
  vm_compute; reflexivity.
Defined.

(** C9.  A URL whose coordinates are written without a decimal fraction
    makes [extract_coordinates] fail with its extraction error, whatever
    else the URL holds: when the number that follows [@], and the number
    that follows [!3d], is nowhere in the URL a number with a point and a
    digit after its digits, neither pattern matches, since both ask for
    digits, a point and digits in each number.  Such numbers, [37] and
    [-122] for one, parse as floats all the same. *)
Theorem extract_integer_forms_fail (url : str) :
  no_decimal_after (s "@") url = true ->
  no_decimal_after (s "!3d") url = true ->
  search at_pattern url = None /\ search pin_pattern url = None /\
  extract_coordinates url = inl (extraction_failure url).
Proof.
  intros Hat Hpin.
  assert (H1 : search at_pattern url = None).
  { destruct (search at_pattern url) as [m|] eqn:Hs; [|reflexivity].
    apply search_sound in Hs as (pre & mid & post & -> & HR).
    apply Run_at_pattern in HR
      as (n1 & i1 & f1 & n2 & i2 & f2 & -> & _ & Hi & Hf & _).
    replace (pre ++ ("@"%char :: numeral n1 i1 f1 ++ ","%char :: numeral n2 i2 f2)
                 ++ post)
      with (pre ++ s "@" ++ numeral n1 i1 f1
                ++ ","%char :: numeral n2 i2 f2 ++ post) in Hat
      by (cbn [s list_ascii_of_string app]; now rewrite <- !app_assoc).
    rewrite no_decimal_after_hit in Hat;
      [discriminate|discriminate|now apply starts_decimal_numeral]. }
  assert (H2 : search pin_pattern url = None).
  { destruct (search pin_pattern url) as [m|] eqn:Hs; [|reflexivity].
    apply search_sound in Hs as (pre & mid & post & -> & HR).
    apply Run_pin_pattern in HR
      as (n1 & i1 & f1 & n2 & i2 & f2 & -> & _ & Hi & Hf & _).
    replace (pre ++ (s "!3d" ++ numeral n1 i1 f1 ++ s "!4d" ++ numeral n2 i2 f2)
                 ++ post)
      with (pre ++ s "!3d" ++ numeral n1 i1 f1
                ++ s "!4d" ++ numeral n2 i2 f2 ++ post) in Hpin
      by now rewrite <- !app_assoc.
    rewrite no_decimal_after_hit in Hpin;
      [discriminate|discriminate|now apply starts_decimal_numeral]. }
  split; [exact H1|]. split; [exact H2|].
  unfold extract_coordinates, patterns, extract_loop.
  now rewrite !try_pattern_no_match.
Qed.

Lemma extract_integer_forms_fail_witness :
  extract_coordinates
    (s "https://www.google.com/maps/@37,-122,3a,75y,90.5h,80t/data=!3m1!1e3!3d37!4d-122")
  = inl (extraction_failure
           (s "https://www.google.com/maps/@37,-122,3a,75y,90.5h,80t/data=!3m1!1e3!3d37!4d-122"))
  /\ extract_coordinates (s "@37,-122") = inl (extraction_failure (s "@37,-122"))
  /\ extract_coordinates (s "!3d37!4d-122")
     = inl (extraction_failure (s "!3d37!4d-122"))
  /\ py_float (s "37") = Some (37 # 1)
  /\ py_float (s "-122") = Some (-122 # 1).
Proof.
  split; [|split; [|split; [|split]]].
  - exact (proj2 (proj2 (extract_integer_forms_fail
       (s "https://www.google.com/maps/@37,-122,3a,75y,90.5h,80t/data=!3m1!1e3!3d37!4d-122")
       eq_refl eq_refl))).
  - exact (proj2 (proj2 (extract_integer_forms_fail (s "@37,-122") eq_refl eq_refl))).
  - exact (proj2 (proj2 (extract_integer_forms_fail (s "!3d37!4d-122")
                           eq_refl eq_refl))).
  - reflexivity.
  - reflexivity.
Defined.

(** C10.  [float] succeeds on every text made of an optional minus sign,
    digits, a point and digits.  When a pattern matches, its two groups are
    such texts and [float] succeeds on both, so the [except ValueError]
    branch is never taken; and the first pattern that matches gives the
    result of the extraction. *)
Theorem float_of_groups_never_fails (url : str) :
  (forall neg ip fp, all_digits ip = true -> all_digits fp = true ->
     py_float (numeral neg ip fp) = Some (decimal_value neg ip fp)) /\
  (forall p m, In p patterns -> search p url = Some m ->
     exists g1 g2 lat lon,
       m = [g1; g2] /\ py_float g1 = Some lat /\ py_float g2 = Some lon /\
       try_pattern p url = Some (ok (lat, lon))) /\
  (forall m, first_structural_match patterns url = Some m ->
     exists g1 g2 lat lon,
       m = [g1; g2] /\ py_float g1 = Some lat /\ py_float g2 = Some lon /\
       extract_coordinates url = ok (lat, lon)).
Proof.
  assert (Hfirst : forall p m, In p patterns -> search p url = Some m ->
     exists g1 g2 lat lon,
       m = [g1; g2] /\ py_float g1 = Some lat /\ py_float g2 = Some lon /\
       try_pattern p url = Some (ok (lat, lon))).
  { intros p m Hp Hs.
    destruct (search_patterns_sound p url m Hp Hs)
      as (n1 & i1 & f1 & n2 & i2 & f2 & -> & H1 & H2 & H3 & H4 & _).
    exists (numeral n1 i1 f1), (numeral n2 i2 f2),
      (decimal_value n1 i1 f1), (decimal_value n2 i2 f2).
    repeat split; auto using py_float_numeral, try_pattern_numerals. }
  split; [intros; now apply py_float_numeral|].
  split; [exact Hfirst|].
  intros m. unfold extract_coordinates, patterns.
  cbn [first_structural_match extract_loop].
  destruct (search at_pattern url) as [m1|] eqn:E1.
  - intros [= <-].
    destruct (Hfirst at_pattern m1 (or_introl eq_refl) E1)
      as (g1 & g2 & lat & lon & -> & F1 & F2 & T).
    exists g1, g2, lat, lon. now rewrite T.
  - rewrite (try_pattern_no_match _ _ E1).
    destruct (search pin_pattern url) as [m2|] eqn:E2; [|discriminate].
    intros [= <-].
    destruct (Hfirst pin_pattern m2 (or_intror (or_introl eq_refl)) E2)
      as (g1 & g2 & lat & lon & -> & F1 & F2 & T).
    exists g1, g2, lat, lon. now rewrite T.
Qed.

Lemma float_of_groups_never_fails_witness :
  exists g1 g2 lat lon,
    [s "1.5"; s "-2.57"] = [g1; g2] /\
    py_float g1 = Some lat /\ py_float g2 = Some lon /\
    extract_coordinates (s "https://www.google.com/maps/place/data=!3d1.5!4d-2.57")
    = ok (lat, lon).
Proof.
  apply (proj2 (proj2 (float_of_groups_never_fails
                  (s "https://www.google.com/maps/place/data=!3d1.5!4d-2.57")))).
  vm_compute. reflexivity.
Defined.

(** ** [get_location_info] *)

Section Resolver.

Lemma scan_components (comps : list component) :
  fold_left scan_component comps (None, None)
  = (option_map long_name (last_with (s "country") comps),
     option_map long_name (last_with (s "administrative_area_level_1") comps)).
Proof.
  unfold last_with. rewrite <- fold_left_rev_right.
  induction (rev comps) as [|c l IH]; [reflexivity|].
  cbn [fold_right find]. rewrite IH. unfold scan_component, has_type.
  destruct (mem (s "country") (types c)),
    (mem (s "administrative_area_level_1") (types c)); reflexivity.
Qed.

Lemma last_with_none (tag : str) (comps : list component) :
  (forall c, In c comps -> has_type tag c = false) -> last_with tag comps = None.
Proof.
  intros H. unfold last_with.
  destruct (find (has_type tag) (rev comps)) as [c|] eqn:E; [|reflexivity].
  apply find_some in E as [Hin Hc]. apply in_rev in Hin.
  rewrite (H c Hin) in Hc. discriminate.
Qed.

(** The answer on a reply that passed the checks of the HTTP status, of the
    service status and of the result list. *)
Lemma get_location_info_first (code : Z) (first : geocode_result)
    (others : list geocode_result) :
  http_error_status code = false ->
  get_location_info (ok_reply code (first :: others))
  = match last_with (s "country") (address_components first),
          last_with (s "administrative_area_level_1") (address_components first)
    with
    | Some c, Some a =>
        match long_name c, long_name a with
        | _ :: _, _ :: _ => ok (long_name c, long_name a)
        | _, _ => inl incomplete_location
        end
    | _, _ => inl incomplete_location
    end.
Proof.
  intros Hcode. unfold ok_reply, get_location_info. rewrite Hcode.
  cbn [status results]. change (opt_str_eqb (Some (s "OK")) (s "OK")) with true.
  cbn [negb]. rewrite scan_components.
  destruct (last_with (s "country") (address_components first)) as [c|];
    destruct (last_with (s "administrative_area_level_1")
                (address_components first)) as [a|]; cbn [option_map];
    try reflexivity.
  - destruct (long_name c), (long_name a); reflexivity.
  - destruct (long_name c); reflexivity.
Qed.

End Resolver.

(** C4, as stated, fails: of two components of type "country" the resolver
    returns the name of the second one, not of the first. *)
Lemma resolver_takes_last_component :
  option_map long_name (first_with (s "country") (address_components two_countries))
    = Some (s "France")
  /\ get_location_info (ok_reply 200 [two_countries])
     = ok (s "Germany", s "Bavaria").
Proof. split; vm_compute; reflexivity. Qed.

(** C4, amended.  On a reply that is not an HTTP error, has the service
    status "OK" and a non-empty result list, the resolver reads only the
    first result, and in its address components takes the LAST component
    whose types include "country" and the last one whose types include
    "administrative_area_level_1"; it returns their long names when both
    components exist and both names are non-empty. *)
Theorem resolver_first_result_last_components (code : Z)
    (first : geocode_result) (others : list geocode_result) (c a : component) :
  http_error_status code = false ->
  last_with (s "country") (address_components first) = Some c ->
  last_with (s "administrative_area_level_1") (address_components first) = Some a ->
  long_name c <> [] -> long_name a <> [] ->
  get_location_info (ok_reply code (first :: others))
  = ok (long_name c, long_name a).
Proof.
  intros Hcode Hc Ha Hnc Hna.
  rewrite get_location_info_first by assumption. rewrite Hc, Ha.
  destruct (long_name c), (long_name a); congruence.
Qed.

Lemma resolver_first_result_last_components_witness :
  get_location_info (ok_reply 200 [two_countries; two_countries])
  = ok (s "Germany", s "Bavaria").
Proof.
  apply (resolver_first_result_last_components 200 two_countries [two_countries]
           {| types := [s "country"; s "political"]; long_name := s "Germany" |}
           {| types := [s "administrative_area_level_1"; s "political"];
              long_name := s "Bavaria" |});
    try reflexivity; discriminate.
Defined.

(** C8.  When the first result has no component of type
    "administrative_area_level_1", or none of type "country", the resolver
    raises its error for missing information, even if the other component
    is there; it returns no partial pair. *)
Theorem resolver_incomplete_location (code : Z) (first : geocode_result)
    (others : list geocode_result) :
  http_error_status code = false ->
  (forall c, In c (address_components first) ->
     has_type (s "administrative_area_level_1") c = false) \/
  (forall c, In c (address_components first) ->
     has_type (s "country") c = false) ->
  get_location_info (ok_reply code (first :: others)) = inl incomplete_location.
Proof.
  intros Hcode H. rewrite get_location_info_first by assumption.
  destruct H as [H|H]; rewrite (last_with_none _ _ H).
  - now destruct (last_with (s "country") (address_components first)).
  - reflexivity.
Qed.

Lemma resolver_incomplete_location_witness :
  first_with (s "country") (address_components country_only)
    = Some {| types := [s "country"; s "political"]; long_name := s "Monaco" |}
  /\ get_location_info (ok_reply 200 [country_only]) = inl incomplete_location.
Proof.
  split; [reflexivity|].
  apply (resolver_incomplete_location 200 country_only []); [reflexivity|].
  left. intros c [<-|[<-|[]]]; reflexivity.
Defined.

(** C6, as stated, fails: a refusal by the service, an empty result list
    and a missing component are raised as the same kind of exception,
    [ValueError]. *)
Lemma resolver_failures_share_a_kind :
  exists e1 e2 e3,
    get_location_info over_limit_reply = inl e1 /\
    get_location_info (ok_reply 200 []) = inl e2 /\
    get_location_info (ok_reply 200 [country_only]) = inl e3 /\
    exn_kind e1 = ValueError /\ exn_kind e2 = ValueError /\
    exn_kind e3 = ValueError.
Proof.
  exists (api_error (Some (s "OVER_QUERY_LIMIT"))), no_results, incomplete_location.
  repeat split; vm_compute; reflexivity.
Qed.

(** C6, amended.  A failure of the resolver is either an exception of the
    HTTP library, raised when there is no reply, when the HTTP status is an
    error or when the body is not JSON, or a [ValueError]; the three
    [ValueError]s share their kind and are told apart by their message only:
    "Geocoding API error: " followed by the status of the service, "No
    results found for the given coordinates", and "Country or state
    information is missing", three messages that differ whatever the status
    is. *)
Theorem resolver_failures_by_message :
  (forall reply e, get_location_info reply = inl e ->
     (exn_kind e = RequestException /\
      (reply = NoReply \/
       (exists code body, reply = Reply code body /\
          (http_error_status code = true \/ body = None)))) \/
     (exists code data, reply = Reply code (Some data) /\
        opt_str_eqb (status data) (s "OK") = false /\
        e = api_error (status data)) \/
     (exists code data, reply = Reply code (Some data) /\
        opt_str_eqb (status data) (s "OK") = true /\
        (results data = None \/ results data = Some []) /\ e = no_results) \/
     (exists code data first others, reply = Reply code (Some data) /\
        opt_str_eqb (status data) (s "OK") = true /\
        results data = Some (first :: others) /\ e = incomplete_location)) /\
  (forall st,
     exn_kind (api_error st) = ValueError /\
     exn_msg (api_error st) = s "Geocoding API error: " ++ show_opt st /\
     api_error st <> no_results /\ api_error st <> incomplete_location) /\
  exn_kind no_results = ValueError /\
  exn_kind incomplete_location = ValueError /\
  no_results <> incomplete_location.
Proof.
  split; [|repeat split; discriminate].
  intros reply e H. destruct reply as [|code body].
  - left. injection H as <-. split; [reflexivity|now left].
  - unfold get_location_info in H.
    destruct (http_error_status code) eqn:Hcode.
    { left. injection H as <-. split; [reflexivity|]. right. eauto 6. }
    destruct body as [data|].
    2:{ left. injection H as <-. split; [reflexivity|]. right. eauto 6. }
    right. destruct (opt_str_eqb (status data) (s "OK")) eqn:Hst; cbn [negb] in H.
    2:{ left. injection H as <-. eauto 6. }
    right. destruct (results data) as [[|first others]|] eqn:Hrs.
    + left. injection H as <-. exists code, data. auto.
    + right. exists code, data, first, others. repeat split; auto.
      destruct (fold_left scan_component (address_components first) (None, None))
        as [[[|c country]|] [[|d state]|]]; try discriminate; now injection H.
    + left. injection H as <-. exists code, data. auto.
Qed.

Lemma resolver_failures_by_message_witness :
  exists code data,
    over_limit_reply = Reply code (Some data) /\
    opt_str_eqb (status data) (s "OK") = false /\
    api_error (Some (s "OVER_QUERY_LIMIT")) = api_error (status data).
Proof.
  destruct (proj1 resolver_failures_by_message over_limit_reply
              (api_error (Some (s "OVER_QUERY_LIMIT"))) eq_refl)
    as [[H _]|[H|[H|H]]].
  - discriminate H.
  - exact H.
  - destruct H as (code & data & E & Hst & _). injection E as <- <-. discriminate Hst.
  - destruct H as (code & data & f & o & E & Hst & _). injection E as <- <-.
    discriminate Hst.
Defined.

(** ** Text: substrings, lines, the coordinate text *)

Section Text.

Lemma starts_with_app (x b : str) : starts_with x (x ++ b) = true.
Proof.
  induction x as [|c x IH]; [reflexivity|].
  simpl. now rewrite Ascii.eqb_refl, IH.
Qed.

Lemma contains_app_r (x a t : str) :
  contains x t = true -> contains x (a ++ t) = true.
Proof.
  intros H; induction a as [|c a IH]; [exact H|].
  change (contains x (c :: a ++ t) = true). cbn [contains].
  rewrite IH. apply orb_true_r.
Qed.

Lemma contains_mid (x a b : str) : contains x (a ++ x ++ b) = true.
Proof.
  apply contains_app_r. destruct (x ++ b) eqn:E; cbn [contains];
    rewrite <- E, starts_with_app; reflexivity.
Qed.

Lemma lstrip_suffix (t : str) : exists a, t = a ++ lstrip t.
Proof.
  induction t as [|c t [a IH]]; [now exists []|].
  simpl. destruct (is_space c); [|now exists []].
  exists (c :: a). simpl. now rewrite <- IH.
Qed.

(** The stripped text stands in the text. *)
Lemma strip_infix (t : str) : exists a b, t = a ++ strip t ++ b.
Proof.
  unfold strip, rstrip.
  destruct (lstrip_suffix (rev t)) as [b Hb].
  destruct (lstrip_suffix (rev (lstrip (rev t)))) as [a Ha].
  exists a, (rev b). rewrite app_assoc, <- Ha, <- rev_app_distr, <- Hb.
  now rewrite rev_involutive.
Qed.

Lemma contains_strip (t : str) : contains (strip t) t = true.
Proof.
  destruct (strip_infix t) as (a & b & E). rewrite E at 2. apply contains_mid.
Qed.

Lemma lines_no_newline (t : str) : no_newline t -> Docs.lines t = [t].
Proof.
  induction t as [|c t IH]; intros H; [reflexivity|].
  cbn [Docs.lines].
  destruct (Ascii.eqb_spec c newline) as [->|_]; [elim H; now left|].
  rewrite IH; [reflexivity|]. intros Hin. apply H. now right.
Qed.

Lemma lines_line (x t : str) :
  no_newline x -> Docs.lines (x ++ newline :: t) = x :: Docs.lines t.
Proof.
  induction x as [|c x IH]; intros H; [reflexivity|].
  change (Docs.lines (c :: x ++ newline :: t) = (c :: x) :: Docs.lines t).
  cbn [Docs.lines].
  destruct (Ascii.eqb_spec c newline) as [->|_]; [elim H; now left|].
  rewrite IH; [reflexivity|]. intros Hin. apply H. now right.
Qed.

Lemma no_newline_app (a b : str) :
  no_newline a -> no_newline b -> no_newline (a ++ b).
Proof. unfold no_newline. intros Ha Hb H. apply in_app_or in H. tauto. Qed.

Lemma no_newline_firstn (n : nat) (t : str) : no_newline t -> no_newline (firstn n t).
Proof.
  intros H Hin. apply H. rewrite <- (firstn_skipn n t). apply in_or_app. now left.
Qed.

Lemma no_newline_skipn (n : nat) (t : str) : no_newline t -> no_newline (skipn n t).
Proof.
  intros H Hin. apply H. rewrite <- (firstn_skipn n t). apply in_or_app. now right.
Qed.

Lemma coord_char_not_space (c : ascii) : coord_char c = true -> is_space c = false.
Proof.
  unfold coord_char. intros H.
  apply orb_true_iff in H as [H|H]; [apply orb_true_iff in H as [H|H]|].
  - now apply digit_not_space.
  - apply Ascii.eqb_eq in H as ->. reflexivity.
  - apply Ascii.eqb_eq in H as ->. reflexivity.
Qed.

Lemma coord_char_not_newline (c : ascii) : coord_char c = true -> c <> newline.
Proof. intros H ->. discriminate H. Qed.

Lemma digit_char_is_digit (v : Z) : 0 <= v < 10 -> is_digit (digit_char v) = true.
Proof.
  intros H.
  assert (E : v = 0 \/ v = 1 \/ v = 2 \/ v = 3 \/ v = 4 \/ v = 5 \/ v = 6 \/
              v = 7 \/ v = 8 \/ v = 9) by lia.
  repeat (destruct E as [->|E]; [reflexivity|]). now subst.
Qed.

Lemma string_of_uint_digits (u : Decimal.uint) :
  Forall (fun c => is_digit c = true)
    (list_ascii_of_string (NilEmpty.string_of_uint u)).
Proof.
  induction u; simpl; constructor; auto; reflexivity.
Qed.

Lemma show_nat_digits (n : Z) :
  show_nat n <> [] /\ Forall (fun c => is_digit c = true) (show_nat n).
Proof.
  unfold show_nat, NilZero.string_of_uint.
  destruct (N.to_uint (Z.to_N n)) as [|u|u|u|u|u|u|u|u|u|u];
    (split; [discriminate|]);
    [constructor; [reflexivity|constructor]|..];
    match goal with
    | |- Forall _ (list_ascii_of_string (NilEmpty.string_of_uint ?v)) =>
        apply (string_of_uint_digits v)
    end.
Qed.

Lemma fmt6_chars (x : Q) :
  fmt6 x <> [] /\ Forall (fun c => coord_char c = true) (fmt6 x).
Proof.
  unfold fmt6. set (m := round_half_even _ _).
  destruct (show_nat_digits (m / 1000000)) as [Hne Hds].
  assert (Hd : forall c, is_digit c = true -> coord_char c = true).
  { intros c Hc. unfold coord_char. now rewrite Hc. }
  split.
  - destruct (Qnum x <? 0); [discriminate|].
    destruct (show_nat (m / 1000000)); [congruence|discriminate].
  - apply Forall_app. split; [destruct (Qnum x <? 0); repeat constructor|].
    apply Forall_app. split; [eapply Forall_impl; [exact Hd|exact Hds]|].
    apply Forall_app. split; [repeat constructor|].
    cbn [map]. repeat constructor;
      apply Hd, digit_char_is_digit, Z.mod_pos_bound; lia.
Qed.

Lemma coord_text_line (lat lon : Q) :
  coord_text lat lon = search_text lat lon ++ [newline].
Proof. unfold coord_text, search_text. now rewrite <- !app_assoc. Qed.

Lemma search_text_head (lat lon : Q) : no_space_at_head (search_text lat lon).
Proof.
  destruct (fmt6_chars lat) as [Hne H]. unfold search_text.
  destruct (fmt6 lat) as [|c t] eqn:E; [congruence|].
  intros d [= <-]. apply coord_char_not_space. now inversion H.
Qed.

Lemma search_text_last (lat lon : Q) : no_space_at_head (rev (search_text lat lon)).
Proof.
  destruct (fmt6_chars lon) as [Hne H]. unfold search_text.
  rewrite !rev_app_distr.
  destruct (rev (fmt6 lon)) as [|c t] eqn:E.
  - apply (f_equal (@rev ascii)) in E. rewrite rev_involutive in E. now subst.
  - intros d [= <-]. apply coord_char_not_space.
    rewrite Forall_forall in H. apply H, in_rev. rewrite E. now left.
Qed.

Lemma search_text_no_newline (lat lon : Q) : no_newline (search_text lat lon).
Proof.
  assert (H : forall x, no_newline (fmt6 x)).
  { intros x Hin. destruct (fmt6_chars x) as [_ Hx].
    rewrite Forall_forall in Hx. now apply (coord_char_not_newline _ (Hx _ Hin)). }
  unfold search_text. apply no_newline_app; [apply H|].
  apply no_newline_app; [|apply H].
  intros [E|[E|[]]]; discriminate E.
Qed.

(** The trimmed coordinate text is the line without its newline. *)
Lemma strip_coord_text (lat lon : Q) :
  strip (coord_text lat lon) = search_text lat lon.
Proof.
  rewrite coord_text_line.
  apply strip_line; [apply search_text_head|apply search_text_last].
Qed.

Lemma search_text_nonempty (lat lon : Q) : search_text lat lon <> [].
Proof.
  destruct (fmt6_chars lat) as [Hne _]. unfold search_text.
  destruct (fmt6 lat); [congruence|discriminate].
Qed.

End Text.

(** ** The document service *)

Section Service.

Import Docs.

Lemma len_nonneg (t : str) : 0 <= len t.
Proof. unfold len. lia. Qed.

Lemma len_app (a b : str) : len (a ++ b) = len a + len b.
Proof. unfold len. rewrite length_app. lia. Qed.

Lemma body_end_ge (b : body) : forall start, start <= body_end start b.
Proof.
  induction b as [|p b IH]; intros start; simpl; [lia|].
  specialize (IH (para_end start p)). unfold para_end in *.
  pose proof (len_nonneg (ptext p)). lia.
Qed.

Lemma body_end_app (b1 b2 : body) :
  forall start, body_end start (b1 ++ b2) = body_end (body_end start b1) b2.
Proof. induction b1 as [|p b1 IH]; intros start; simpl; auto. Qed.

(** Inserting at a place given by the paragraph and the offset in it. *)
Lemma insert_at_app (pre : body) (Q : para) (post : body) (off : nat) (t : str) :
  (off <= length (ptext Q))%nat ->
  forall start,
  insert_at start (pre ++ Q :: post) (body_end start pre + Z.of_nat off) t
  = Some (pre ++ splice Q off t ++ post).
Proof.
  intros Hoff. induction pre as [|p pre IH]; intros start.
  - cbn [app body_end insert_at]. unfold para_end, len.
    replace ((start <=? start + Z.of_nat off)
             && (start + Z.of_nat off <? start + Z.of_nat (length (ptext Q)) + 1))%bool
      with true by (symmetry; apply andb_true_iff; split;
                    [apply Z.leb_le|apply Z.ltb_lt]; lia).
    replace (start + Z.of_nat off - start) with (Z.of_nat off) by lia.
    now rewrite Nat2Z.id.
  - cbn [app body_end insert_at].
    pose proof (body_end_ge pre (para_end start p)).
    replace (body_end (para_end start p) pre + Z.of_nat off <? para_end start p)
      with false by (symmetry; apply Z.ltb_ge; lia).
    rewrite andb_false_r, IH. reflexivity.
Qed.

(** Every successful insertion is of that form. *)
Lemma insert_at_inv (b : body) (i : Z) (t : str) :
  forall start b', insert_at start b i t = Some b' ->
  exists pre Q post off,
    b = pre ++ Q :: post /\ (off <= length (ptext Q))%nat /\
    i = body_end start pre + Z.of_nat off /\
    b' = pre ++ splice Q off t ++ post.
Proof.
  induction b as [|p b IH]; intros start b' H; [discriminate|].
  cbn [insert_at] in H.
  destruct ((start <=? i) && (i <? para_end start p))%bool eqn:E.
  - injection H as <-. apply andb_true_iff in E as [E1 E2].
    apply Z.leb_le in E1. apply Z.ltb_lt in E2. unfold para_end, len in E2.
    exists [], p, b, (Z.to_nat (i - start)). cbn [app body_end].
    repeat split; try reflexivity; lia.
  - destruct (insert_at (para_end start p) b i t) as [b1|] eqn:Hi; [|discriminate].
    injection H as <-.
    destruct (IH _ _ Hi) as (pre & Q & post & off & -> & Hoff & -> & ->).
    exists (p :: pre), Q, post, off. repeat split; auto.
Qed.

(** A line inserted into a paragraph cuts it in two. *)
Lemma splice_line (Q : para) (off : nat) (x : str) :
  no_newline (ptext Q) -> no_newline x ->
  splice Q off (x ++ [newline])
  = [ {| pstyle := pstyle Q; ptext := firstn off (ptext Q) ++ x |};
      {| pstyle := pstyle Q; ptext := skipn off (ptext Q) |} ].
Proof.
  intros HQ Hx. unfold splice.
  replace (firstn off (ptext Q) ++ (x ++ [newline]) ++ skipn off (ptext Q))
    with ((firstn off (ptext Q) ++ x) ++ newline :: skipn off (ptext Q))
    by (rewrite <- !app_assoc; reflexivity).
  rewrite lines_line by auto using no_newline_app, no_newline_firstn.
  rewrite lines_no_newline by auto using no_newline_skipn.
  reflexivity.
Qed.

Lemma restyle_after (b : body) (a z : Z) (st : named_style) :
  forall start, z <= start -> restyle start b a z st = b.
Proof.
  induction b as [|p b IH]; intros start H; [reflexivity|].
  cbn [restyle]. replace (start <? z) with false by (symmetry; apply Z.ltb_ge; lia).
  cbn [andb]. rewrite IH; [reflexivity|].
  unfold para_end. pose proof (len_nonneg (ptext p)). lia.
Qed.

(** A range that lies in one paragraph restyles that paragraph only. *)
Lemma restyle_one (pre : body) (P : para) (post : body) (a z : Z)
    (st : named_style) :
  forall start,
  body_end start pre <= a -> a < z -> z <= para_end (body_end start pre) P ->
  restyle start (pre ++ P :: post) a z st
  = pre ++ {| pstyle := st; ptext := ptext P |} :: post.
Proof.
  induction pre as [|p pre IH]; intros start Ha Haz Hz.
  - cbn [app body_end restyle] in *.
    replace (start <? z) with true by (symmetry; apply Z.ltb_lt; lia).
    replace (a <? para_end start P) with true by (symmetry; apply Z.ltb_lt; lia).
    cbn [andb]. now rewrite restyle_after.
  - cbn [app body_end restyle] in *.
    pose proof (body_end_ge pre (para_end start p)).
    replace (a <? para_end start p) with false by (symmetry; apply Z.ltb_ge; lia).
    rewrite andb_false_r. now rewrite IH.
Qed.

(** The two requests that add a styled line, on a body seen at the place of
    the insertion. *)
Lemma insert_line (pre : body) (Q : para) (post : body) (off : nat) (x : str) :
  no_newline (ptext Q) -> no_newline x -> (off <= length (ptext Q))%nat ->
  apply_request (pre ++ Q :: post)
    (InsertText (body_end 1 pre + Z.of_nat off) (x ++ [newline]))
  = Some (pre ++ {| pstyle := pstyle Q; ptext := firstn off (ptext Q) ++ x |}
              :: {| pstyle := pstyle Q; ptext := skipn off (ptext Q) |} :: post).
Proof.
  intros HQ Hx Hoff. cbn [apply_request].
  rewrite insert_at_app by assumption. now rewrite splice_line.
Qed.

Lemma restyle_line (pre : body) (Q : para) (post : body) (off : nat) (x : str)
    (st0 st : named_style) (i : Z) :
  (off <= length (ptext Q))%nat ->
  i = body_end 1 pre + Z.of_nat off ->
  apply_request
    (pre ++ {| pstyle := st0; ptext := firstn off (ptext Q) ++ x |}
         :: {| pstyle := pstyle Q; ptext := skipn off (ptext Q) |} :: post)
    (UpdateParagraphStyle i (i + len x + 1) st)
  = Some (pre ++ {| pstyle := st; ptext := firstn off (ptext Q) ++ x |}
              :: {| pstyle := pstyle Q; ptext := skipn off (ptext Q) |} :: post).
Proof.
  intros Hoff ->. cbn [apply_request].
  set (P := {| pstyle := st0; ptext := firstn off (ptext Q) ++ x |}).
  set (P2 := {| pstyle := pstyle Q; ptext := skipn off (ptext Q) |}).
  assert (HP : para_end (body_end 1 pre) P
               = body_end 1 pre + Z.of_nat off + len x + 1).
  { unfold para_end, P. cbn [ptext]. rewrite len_app. unfold len.
    rewrite length_firstn. lia. }
  pose proof (body_end_ge pre 1). pose proof (len_nonneg x).
  assert (Hv : valid_range (pre ++ P :: P2 :: post)
                 (body_end 1 pre + Z.of_nat off)
                 (body_end 1 pre + Z.of_nat off + len x + 1) = true).
  { unfold valid_range. rewrite body_end_app. cbn [body_end]. rewrite HP.
    match goal with |- context [body_end ?s0 post] =>
      pose proof (body_end_ge post s0) end.
    unfold para_end in *. pose proof (len_nonneg (ptext P2)).
    repeat (apply andb_true_iff; split);
      [apply Z.leb_le|apply Z.ltb_lt|apply Z.leb_le]; lia. }
  rewrite Hv. rewrite restyle_one; [reflexivity| | |]; rewrite ?HP; lia.
Qed.

End Service.

(** ** [archive_location] *)

Section Archive.

Import Docs.

Lemma paragraph_text_rendered (p : para) :
  paragraph_text
    {| elements := [{| textRun := Some {| content := Some (ptext p ++ [newline]) |} |}] |}
  = rendered_text p.
Proof. unfold paragraph_text, rendered_text. simpl. now rewrite app_nil_r. Qed.

(** The duplicate check, read on the paragraphs of the service. *)
Lemma location_exists_rendered (sv : service) (lat lon : Q) (url : str) :
  location_exists_in_doc (get sv) lat lon url
  = existsb (fun p => (contains (search_text lat lon) (rendered_text p)
                       || contains url (rendered_text p))%bool) (doc sv).
Proof.
  unfold get, location_exists_in_doc. cbn [existsb paragraph orb].
  generalize 1. induction (doc sv) as [|p b IH]; intros start; [reflexivity|].
  cbn [render_from existsb]. unfold render_para. cbn [paragraph].
  rewrite paragraph_text_rendered.
  now rewrite IH.
Qed.

(** The batch is zero, one or two heading lines, then the coordinate line. *)
Lemma archive_requests_shape (doc_content : list StructuralElement)
    (url : str) (lat lon : Q) (country state : str) :
  exists hs ci,
    archive_requests doc_content url lat lon country state
    = concat (map label_step hs) ++ coord_step ci lat lon url /\
    Forall (fun h => let '(_, x, st) := h in
              (x = country \/ x = state) /\ is_normal_text st = false) hs.
Proof.
  unfold archive_requests.
  destruct (find_headers doc_content country state) as [[ci|] [si|]].
  - exists [], (si + len state + 1). split; [reflexivity|constructor].
  - exists [(ci + len country + 1, state, HEADING_2)],
      (ci + len country + 1 + len state + 1).
    split; [reflexivity|]. repeat (apply Forall_cons || apply Forall_nil); auto.
  - exists [(1, country, HEADING_1)], (si + len state + 1).
    split; [|repeat (apply Forall_cons || apply Forall_nil); auto].
    cbn [map concat label_step app]. do 3 f_equal. lia.
  - exists [(1, country, HEADING_1); (1 + len country + 1, state, HEADING_2)],
      (1 + len country + 1 + len state + 1).
    split; [|repeat (apply Forall_cons || apply Forall_nil); auto].
    cbn [map concat label_step app]. do 3 f_equal. lia.
Qed.

Lemma apply_text_styles (mid rest : list request) (b r : body) :
  Forall is_text_style mid ->
  apply_requests b (mid ++ rest) = Some r -> apply_requests b rest = Some r.
Proof.
  intros Hmid; induction Hmid as [|q mid Hq _ IH]; [auto|].
  destruct q; try contradiction. cbn [app apply_requests apply_request].
  destruct (valid_range b range_start range_end); [exact IH|discriminate].
Qed.

(** An accepted batch that inserts the line [x] and then styles it leaves
    [x] at the end of a paragraph of its own style, cut out of a paragraph of
    the body. *)
Lemma styled_line_inv (b r : body) (i : Z) (x : str) (st : named_style)
    (mid rest : list request) :
  wf b -> no_newline x -> Forall is_text_style mid ->
  apply_requests b
    (InsertText i (x ++ [newline]) :: mid ++
     UpdateParagraphStyle i (i + len x + 1) st :: rest) = Some r ->
  exists pre Q post off,
    b = pre ++ Q :: post /\ (off <= length (ptext Q))%nat /\
    i = body_end 1 pre + Z.of_nat off /\
    apply_requests
      (pre ++ {| pstyle := st; ptext := firstn off (ptext Q) ++ x |}
           :: {| pstyle := pstyle Q; ptext := skipn off (ptext Q) |} :: post)
      rest = Some r.
Proof.
  intros Hwf Hx Hmid H. cbn [apply_requests] in H.
  destruct (apply_request b (InsertText i (x ++ [newline]))) as [b1|] eqn:Hi;
    [|discriminate].
  cbn [apply_request] in Hi.
  destruct (insert_at_inv _ _ _ _ _ Hi) as (pre & Q & post & off & -> & Hoff & -> & _).
  assert (HQ : no_newline (ptext Q)).
  { unfold wf in Hwf. rewrite Forall_forall in Hwf. apply Hwf.
    apply in_or_app. right. now left. }
  change (insert_at 1 (pre ++ Q :: post) (body_end 1 pre + Z.of_nat off)
            (x ++ [newline]))
    with (apply_request (pre ++ Q :: post)
            (InsertText (body_end 1 pre + Z.of_nat off) (x ++ [newline]))) in Hi.
  rewrite insert_line in Hi by assumption. injection Hi as <-.
  apply apply_text_styles in H; [|assumption].
  cbn [apply_requests] in H.
  rewrite (restyle_line pre Q post off x (pstyle Q) st) in H by auto.
  exists pre, Q, post, off. auto.
Qed.

Lemma holders_cut (x : str) (pre post : body) (Q : para) (off : nat)
    (y : str) (st : named_style) :
  holders_not_normal x (pre ++ Q :: post) ->
  (contains x (rendered_text {| pstyle := st; ptext := firstn off (ptext Q) ++ y |})
     = true -> is_normal_text st = false) ->
  holders_not_normal x
    (pre ++ {| pstyle := st; ptext := firstn off (ptext Q) ++ y |}
         :: {| pstyle := pstyle Q; ptext := skipn off (ptext Q) |} :: post).
Proof.
  unfold holders_not_normal. intros H Hst.
  apply Forall_app in H as [Hpre HQ]. inversion HQ as [|? ? HQ1 Hpost]; subst.
  apply Forall_app. split; [assumption|].
  constructor; [exact Hst|]. constructor; [|assumption].
  cbn [pstyle]. intros Hc. apply HQ1.
  unfold rendered_text in *. cbn [ptext] in Hc.
  rewrite <- (firstn_skipn off (ptext Q)), <- app_assoc.
  now apply contains_app_r.
Qed.

Lemma wf_cut (pre post : body) (Q : para) (off : nat) (y : str)
    (st : named_style) :
  wf (pre ++ Q :: post) -> no_newline y ->
  wf (pre ++ {| pstyle := st; ptext := firstn off (ptext Q) ++ y |}
          :: {| pstyle := pstyle Q; ptext := skipn off (ptext Q) |} :: post).
Proof.
  unfold wf. intros H Hy.
  apply Forall_app in H as [Hpre HQ]. inversion HQ as [|? ? HQ1 Hpost]; subst.
  apply Forall_app. split; [assumption|].
  constructor; [apply no_newline_app; auto using no_newline_firstn|].
  constructor; [now apply no_newline_skipn|assumption].
Qed.

(** The heading lines of a batch keep the document well formed and add no
    NORMAL_TEXT paragraph that holds [x]. *)
Lemma label_steps_inv (x : str) (hs : list (Z * str * named_style))
    (rest : list request) :
  Forall (fun h => let '(_, y, st) := h in
            no_newline y /\ is_normal_text st = false) hs ->
  forall b r,
  wf b -> holders_not_normal x b ->
  apply_requests b (concat (map label_step hs) ++ rest) = Some r ->
  exists b', wf b' /\ holders_not_normal x b' /\ apply_requests b' rest = Some r.
Proof.
  intros Hhs; induction Hhs as [|[[i y] st] hs [Hy Hst] _ IH]; intros b r Hwf Hinv H.
  - exists b. auto.
  - cbn [map concat label_step] in H. rewrite <- app_assoc in H.
    cbn [app] in H.
    apply (styled_line_inv b r i y st []) in H; auto.
    destruct H as (pre & Q & post & off & -> & Hoff & -> & H).
    apply IH in H; auto using wf_cut, holders_cut.
Qed.

Lemma filter_none (A : Type) (f : A -> bool) (l : list A) :
  Forall (fun a => f a = false) l -> filter f l = [].
Proof.
  intros H; induction H as [|a l Ha _ IH]; [reflexivity|].
  simpl. now rewrite Ha.
Qed.

Lemma holders_no_coordinate_paragraph (lat lon : Q) (b : body) :
  holders_not_normal (search_text lat lon) b ->
  filter (coordinate_paragraph lat lon) b = [].
Proof.
  intros H. apply filter_none. eapply Forall_impl; [|exact H].
  intros p Hp. cbv beta in Hp. unfold coordinate_paragraph.
  destruct (contains (search_text lat lon) (rendered_text p));
    [now rewrite (Hp eq_refl)|apply andb_false_r].
Qed.

(** What an accepted batch of [archive_location] makes of the document. *)
Lemma archive_requests_result (sv : service) (url : str) (lat lon : Q)
    (country state : str) (r : body) :
  wf (doc sv) -> no_newline country -> no_newline state ->
  location_exists_in_doc (get sv) lat lon url = false ->
  apply_requests (doc sv)
    (archive_requests (get sv) url lat lon country state) = Some r ->
  exists pre Q post off,
    holders_not_normal (search_text lat lon) (pre ++ Q :: post) /\
    r = pre ++ {| pstyle := NORMAL_TEXT;
                  ptext := firstn off (ptext Q) ++ search_text lat lon |}
            :: {| pstyle := pstyle Q; ptext := skipn off (ptext Q) |} :: post.
Proof.
  intros Hwf Hc Hs Hdup H.
  destruct (archive_requests_shape (get sv) url lat lon country state)
    as (hs & ci & E & Hhs).
  rewrite E in H. clear E.
  apply (label_steps_inv (search_text lat lon)) in H; auto.
  - destruct H as (b' & Hwf' & Hinv & H).
    unfold coord_step in H. rewrite coord_text_line in H.
    replace (len (search_text lat lon ++ [newline]))
      with (len (search_text lat lon) + 1) in H
      by (rewrite len_app; reflexivity).
    rewrite Z.add_assoc in H.
    apply (styled_line_inv b' r ci (search_text lat lon) NORMAL_TEXT
             [UpdateTextStyle ci _ url] []) in H;
      auto using search_text_no_newline.
    + destruct H as (pre & Q & post & off & -> & Hoff & -> & H).
      injection H as <-. exists pre, Q, post, off. auto.
    + repeat constructor.
  - eapply Forall_impl; [|exact Hhs]. intros [[i y] st] [[->| ->] Hst]; auto.
  - rewrite location_exists_rendered in Hdup.
    unfold holders_not_normal. apply Forall_forall. intros p Hp Hcontains.
    exfalso. apply eq_true_false_abs in Hdup; [exact Hdup|].
    apply existsb_exists.
    exists p. split; [exact Hp|now rewrite Hcontains].
Qed.

End Archive.

(** ** The search for the headers *)

Section Headers.

Import Docs.

Variables country state : str.

Lemma str_eqb_eq (a b : str) : str_eqb a b = true <-> a = b.
Proof. unfold str_eqb. destruct (list_eq_dec ascii_dec a b); split; congruence. Qed.

Lemma scan_rendered (acc : option Z * option Z) (start : Z) (p : para) :
  scan_header country state acc (render_para start p)
  = if is_header country p then (Some start, snd acc)
    else if is_header state p then (fst acc, Some start)
    else acc.
Proof.
  unfold scan_header, render_para. cbn [paragraph startIndex].
  now rewrite paragraph_text_rendered.
Qed.

Lemma scan_app (b1 b2 : body) :
  forall start acc,
  fold_left (scan_header country state) (render_from start (b1 ++ b2)) acc
  = fold_left (scan_header country state) (render_from (body_end start b1) b2)
      (fold_left (scan_header country state) (render_from start b1) acc).
Proof.
  induction b1 as [|p b1 IH]; intros start acc; [reflexivity|].
  cbn [app render_from fold_left body_end]. apply IH.
Qed.

(** Paragraphs that are not the state header leave the state index. *)
Lemma scan_keeps_state (b : body) :
  Forall (fun p => is_header state p = false) b ->
  forall start acc,
  snd (fold_left (scan_header country state) (render_from start b) acc) = snd acc.
Proof.
  intros H; induction H as [|p b Hp _ IH]; intros start acc; [reflexivity|].
  cbn [render_from fold_left]. rewrite IH.
  rewrite scan_rendered, Hp.
  now destruct (is_header country p).
Qed.

(** Once found, the country index stays found. *)
Lemma scan_keeps_country (b : body) :
  forall start acc, fst acc <> None ->
  fst (fold_left (scan_header country state) (render_from start b) acc) <> None.
Proof.
  induction b as [|p b IH]; intros start acc H; [exact H|].
  cbn [render_from fold_left]. apply IH.
  rewrite scan_rendered.
  destruct (is_header country p); [discriminate|].
  now destruct (is_header state p).
Qed.

Lemma scan_finds_country (b : body) :
  forall start acc, Exists (fun p => is_header country p = true) b ->
  fst (fold_left (scan_header country state) (render_from start b) acc) <> None.
Proof.
  induction b as [|p b IH]; intros start acc H; [inversion H|].
  cbn [render_from fold_left].
  inversion H as [? ? Hp|? ? Hb]; subst.
  - apply scan_keeps_country. rewrite scan_rendered, Hp. discriminate.
  - now apply IH.
Qed.

Lemma filter_one_split (A : Type) (f : A -> bool) (l1 l2 : list A) (a : A) :
  f a = true -> length (filter f (l1 ++ a :: l2)) = 1%nat ->
  Forall (fun x => f x = false) l1 /\ Forall (fun x => f x = false) l2.
Proof.
  intros Ha H. rewrite filter_app in H. cbn [filter] in H. rewrite Ha in H.
  rewrite length_app in H. cbn [length] in H.
  assert (H1 : filter f l1 = []) by (destruct (filter f l1); [reflexivity|simpl in H; lia]).
  assert (H2 : filter f l2 = []) by (destruct (filter f l2); [reflexivity|simpl in H; lia]).
  split; apply Forall_forall; intros x Hx;
    destruct (f x) eqn:E; auto; exfalso.
  - assert (Hin : In x (filter f l1)) by (apply filter_In; auto).
    rewrite H1 in Hin. exact Hin.
  - assert (Hin : In x (filter f l2)) by (apply filter_In; auto).
    rewrite H2 in Hin. exact Hin.
Qed.

Lemma filter_one_exists (A : Type) (f : A -> bool) (l : list A) :
  length (filter f l) = 1%nat -> Exists (fun x => f x = true) l.
Proof.
  intros H. destruct (filter f l) as [|a l'] eqn:E; [discriminate|].
  assert (Hin : In a (filter f l)) by (rewrite E; now left).
  apply filter_In in Hin as [Hin Ha]. apply Exists_exists. eauto.
Qed.

(** With one country header somewhere and the one state header [S], the
    search gives the start of [S] as the state index. *)
Lemma find_headers_existing (pre post : body) (S : para) (snt : list (list request)) :
  country <> state ->
  is_header state S = true ->
  length (filter (is_header country) (pre ++ S :: post)) = 1%nat ->
  length (filter (is_header state) (pre ++ S :: post)) = 1%nat ->
  exists ci,
    find_headers (get {| doc := pre ++ S :: post; sent := snt |}) country state
    = (Some ci, Some (body_end 1 pre)).
Proof.
  intros Hcs HS Hc Hs.
  destruct (filter_one_split _ _ _ _ _ HS Hs) as [Hpre Hpost].
  assert (HSc : is_header country S = false).
  { unfold is_header in *. apply str_eqb_eq in HS.
    destruct (str_eqb (strip (rendered_text S)) country) eqn:E; [|reflexivity].
    apply str_eqb_eq in E. congruence. }
  unfold find_headers, get. cbn [doc fold_left].
  change (scan_header country state (None, None)
            {| startIndex := None; paragraph := None |}) with (@None Z, @None Z).
  set (F := fold_left (scan_header country state)
              (render_from 1 (pre ++ S :: post)) (None, None)).
  assert (Hsnd : snd F = Some (body_end 1 pre)).
  { unfold F. rewrite scan_app. cbn [render_from fold_left].
    rewrite scan_keeps_state by assumption.
    rewrite scan_rendered, HSc, HS.
    reflexivity. }
  assert (Hfst : fst F <> None).
  { unfold F. apply scan_finds_country. now apply filter_one_exists. }
  destruct F as [[ci|] si]; cbn [fst snd] in *; [|congruence].
  exists ci. now rewrite Hsnd.
Qed.

End Headers.

(** ** Archiving under headers that exist *)

Section UnderHeaders.

Import Docs.

(** The coordinate requests at the start of the paragraph [N]. *)
Lemma append_coordinate (pre post : body) (N : para) (lat lon : Q) (url : str) :
  no_newline (ptext N) ->
  apply_requests (pre ++ N :: post) (coord_step (body_end 1 pre) lat lon url)
  = Some (pre ++ coordinate_line lat lon :: N :: post).
Proof.
  intros HN. unfold coord_step. rewrite strip_coord_text, coord_text_line.
  set (x := search_text lat lon).
  assert (Hx : no_newline x) by apply search_text_no_newline.
  assert (Hlen : 0 < len x).
  { unfold len. pose proof (search_text_nonempty lat lon). fold x in H.
    destruct x; [congruence|simpl; lia]. }
  cbn [apply_requests].
  replace (body_end 1 pre) with (body_end 1 pre + Z.of_nat 0) at 1 by (simpl; lia).
  rewrite insert_line by (auto; lia).
  cbn [firstn skipn app].
  set (L0 := {| pstyle := pstyle N; ptext := x |}).
  set (N' := {| pstyle := pstyle N; ptext := ptext N |}).
  assert (EN : N' = N) by (unfold N'; now destruct N).
  assert (Hv : valid_range (pre ++ L0 :: N' :: post) (body_end 1 pre)
                 (body_end 1 pre + len x) = true).
  { unfold valid_range, L0, N'. rewrite body_end_app. cbn [body_end].
    pose proof (body_end_ge pre 1).
    match goal with |- context [body_end ?s0 post] =>
      pose proof (body_end_ge post s0) end.
    unfold para_end in *. cbn [ptext] in *. pose proof (len_nonneg (ptext N)).
    repeat (apply andb_true_iff; split);
      [apply Z.leb_le|apply Z.ltb_lt|apply Z.leb_le]; lia. }
  cbn [apply_request]. rewrite Hv.
  replace (len (x ++ [newline])) with (len x + 1) by (rewrite len_app; reflexivity).
  rewrite Z.add_assoc.
  pose proof (restyle_line pre N post 0 x (pstyle N) NORMAL_TEXT (body_end 1 pre))
    as Hr.
  cbn [firstn skipn app apply_request] in Hr. fold L0 N' in Hr.
  rewrite Hr by (simpl; lia). now rewrite EN.
Qed.

Lemma is_header_coordinate_line (label : str) (lat lon : Q) :
  is_header label (coordinate_line lat lon) = str_eqb (search_text lat lon) label.
Proof.
  unfold is_header, rendered_text, coordinate_line. cbn [ptext].
  rewrite <- coord_text_line. now rewrite strip_coord_text.
Qed.

(** A record that is not a duplicate has a coordinate text that is no
    header of the document. *)
Lemma header_is_no_coordinate (label : str) (b : body) (snt : list (list request))
    (lat lon : Q) (url : str) :
  Exists (fun p => is_header label p = true) b ->
  location_exists_in_doc (get {| doc := b; sent := snt |}) lat lon url = false ->
  is_header label (coordinate_line lat lon) = false.
Proof.
  intros Hex Hdup. rewrite is_header_coordinate_line.
  destruct (str_eqb (search_text lat lon) label) eqn:E; [|reflexivity].
  apply str_eqb_eq in E. exfalso. apply eq_true_false_abs in Hdup; [exact Hdup|].
  rewrite location_exists_rendered. cbn [doc]. apply existsb_exists.
  apply Exists_exists in Hex as (p & Hp & Hh). exists p. split; [exact Hp|].
  unfold is_header in Hh. apply str_eqb_eq in Hh.
  rewrite E, <- Hh, contains_strip. reflexivity.
Qed.

(** One call of [archive_location] when both headers are in the document,
    the state header [S] holding the state name and nothing else, and a
    paragraph [N] following it. *)
Lemma archive_under_headers (pre post : body) (S N : para)
    (snt : list (list request)) (url : str) (lat lon : Q) (country state : str) :
  wf (pre ++ S :: N :: post) -> ptext S = state -> country <> state ->
  is_header state S = true ->
  length (filter (is_header country) (pre ++ S :: N :: post)) = 1%nat ->
  length (filter (is_header state) (pre ++ S :: N :: post)) = 1%nat ->
  location_exists_in_doc (get {| doc := pre ++ S :: N :: post; sent := snt |})
    lat lon url = false ->
  let b' := pre ++ S :: coordinate_line lat lon :: N :: post in
  (exists snt',
     archive_location url lat lon country state
       {| doc := pre ++ S :: N :: post; sent := snt |}
     = (ok Appended, {| doc := b'; sent := snt' |})) /\
  wf b' /\
  length (filter (is_header country) b') = 1%nat /\
  length (filter (is_header state) b') = 1%nat.
Proof.
  intros Hwf HS Hcs HhS Hc Hs Hdup b'.
  assert (HL : forall label,
            Exists (fun p => is_header label p = true) (pre ++ S :: N :: post) ->
            filter (is_header label) b' = filter (is_header label) (pre ++ S :: N :: post)).
  { intros label Hex. unfold b'. rewrite !filter_app. f_equal.
    cbn [filter].
    now rewrite (header_is_no_coordinate label _ snt lat lon url Hex Hdup). }
  split; [|split; [|split]].
  - destruct (find_headers_existing country state pre (N :: post) S snt
                Hcs HhS Hc Hs) as [ci Hf].
    unfold archive_location. rewrite Hdup.
    unfold archive_requests. rewrite Hf. cbn [app].
    fold (coord_step (body_end 1 pre + len state + 1) lat lon url).
    unfold batchUpdate. cbn [doc sent].
    replace (pre ++ S :: N :: post) with ((pre ++ [S]) ++ N :: post)
      by (rewrite <- app_assoc; reflexivity).
    replace (body_end 1 pre + len state + 1) with (body_end 1 (pre ++ [S]))
      by (rewrite body_end_app; cbn [body_end]; unfold para_end; now rewrite HS).
    rewrite append_coordinate.
    + rewrite <- app_assoc. cbn [app]. eexists. reflexivity.
    + unfold wf in Hwf. rewrite Forall_forall in Hwf. apply Hwf.
      apply in_or_app. right. right. now left.
  - unfold wf, b' in *. apply Forall_app in Hwf as [H1 H2].
    inversion H2 as [|? ? H3 H4]; subst.
    apply Forall_app. split; [assumption|].
    constructor; [assumption|]. constructor; [|assumption].
    apply search_text_no_newline.
  - rewrite HL; [assumption|]. now apply filter_one_exists.
  - rewrite HL; [assumption|]. now apply filter_one_exists.
Qed.

End UnderHeaders.

(** C1.  When [archive_location] has appended a record to a (well-formed)
    document, a second call with the same record finds the coordinate text in
    a paragraph, returns [SkippedDuplicate] and leaves the service as it is:
    no batch is sent and the document is unchanged, so that it still holds
    exactly one NORMAL_TEXT paragraph with the coordinate text of the
    record. *)
Theorem archive_twice_is_idempotent (url : str) (lat lon : Q)
    (country state : str) (sv sv1 : Docs.service) :
  Docs.wf (Docs.doc sv) -> no_newline country -> no_newline state ->
  archive_location url lat lon country state sv = (ok Appended, sv1) ->
  (exists p, In p (Docs.doc sv1) /\
             contains (search_text lat lon) (rendered_text p) = true) /\
  location_exists_in_doc (Docs.get sv1) lat lon url = true /\
  archive_location url lat lon country state sv1 = (ok SkippedDuplicate, sv1) /\
  length (filter (coordinate_paragraph lat lon) (Docs.doc sv1)) = 1%nat.
Proof.
  intros Hwf Hc Hs H. unfold archive_location in H.
  destruct (location_exists_in_doc (Docs.get sv) lat lon url) eqn:Hdup;
    [discriminate|].
  unfold Docs.batchUpdate in H.
  destruct (Docs.apply_requests (Docs.doc sv)
              (archive_requests (Docs.get sv) url lat lon country state))
    as [r|] eqn:Ha; [|discriminate].
  injection H as <-.
  destruct (archive_requests_result sv url lat lon country state r
              Hwf Hc Hs Hdup Ha) as (pre & P0 & post & off & Hinv & ->).
  cbn [Docs.doc].
  set (L := {| Docs.pstyle := NORMAL_TEXT;
               Docs.ptext := firstn off (Docs.ptext P0) ++ search_text lat lon |}).
  assert (HL : contains (search_text lat lon) (rendered_text L) = true).
  { unfold rendered_text, L. cbn [Docs.ptext]. rewrite <- app_assoc.
    apply contains_mid. }
  set (P2 := {| Docs.pstyle := Docs.pstyle P0;
                Docs.ptext := skipn off (Docs.ptext P0) |}).
  assert (Hex : forall snt,
            location_exists_in_doc
              (Docs.get {| Docs.doc := pre ++ L :: P2 :: post; Docs.sent := snt |})
              lat lon url = true).
  { intros snt. rewrite location_exists_rendered. apply existsb_exists.
    exists L. split; [apply in_or_app; right; now left|now rewrite HL]. }
  split; [exists L; split; [apply in_or_app; right; now left|exact HL]|].
  split; [apply Hex|].
  split; [unfold archive_location; now rewrite Hex|].
  unfold holders_not_normal in Hinv.
  apply Forall_app in Hinv as [Hpre HQ]. inversion HQ as [|? ? HQ1 Hpost]; subst.
  rewrite filter_app. cbn [filter].
  rewrite (holders_no_coordinate_paragraph lat lon pre Hpre).
  rewrite (holders_no_coordinate_paragraph lat lon post Hpost).
  assert (E1 : coordinate_paragraph lat lon L = true)
    by (unfold coordinate_paragraph; now rewrite HL).
  rewrite E1.
  replace (coordinate_paragraph lat lon P2) with false; [reflexivity|].
  symmetry. unfold coordinate_paragraph.
  destruct (contains (search_text lat lon) (rendered_text P2)) eqn:Ec;
    [|apply andb_false_r].
  unfold P2 at 1. cbn [Docs.pstyle]. rewrite HQ1; [reflexivity|].
  unfold rendered_text, P2 in *. cbn [Docs.ptext] in Ec.
  rewrite <- (firstn_skipn off (Docs.ptext P0)), <- app_assoc.
  now apply contains_app_r.
Qed.


Lemma archive_twice_is_idempotent_witness :
  archive_location (s "https://www.google.com/maps/@37.774900,-122.419400,3a")
    37.7749 (-122.4194) (s "United States") (s "California") after_first_archive
  = (ok SkippedDuplicate, after_first_archive)
  /\ length (filter (coordinate_paragraph 37.7749 (-122.4194))
               (Docs.doc after_first_archive)) = 1%nat.
Proof.
  destruct (archive_twice_is_idempotent
              (s "https://www.google.com/maps/@37.774900,-122.419400,3a")
              37.7749 (-122.4194) (s "United States") (s "California")
              empty_document after_first_archive) as (_ & _ & H1 & H2).
  - repeat constructor. intros [].
  - no_newline_tac.
  - no_newline_tac.
  - vm_compute. reflexivity.
  - split; assumption.
Defined.

(** C2, as stated, fails: of two coordinates archived under the same
    existing headers, the one archived second stands before the one archived
    first. *)
Lemma later_coordinate_comes_first :
  let sv1 := snd (archive_location (s "https://maps/1") 37.7749 (-122.4194)
                    (s "United States") (s "California") headed_document) in
  let sv2 := snd (archive_location (s "https://maps/2") 38.5 (-121.25)
                    (s "United States") (s "California") sv1) in
  map Docs.ptext (Docs.doc sv2)
  = [s "United States"; s "California"; s "38.500000, -121.250000";
     s "37.774900, -122.419400"; []]
  /\ line_index (search_text 37.7749 (-122.4194)) (Docs.doc sv2) = Some 3%nat
  /\ line_index (search_text 38.5 (-121.25)) (Docs.doc sv2) = Some 2%nat.
Proof. vm_compute. repeat split. Qed.

(** C2, amended.  In a document with exactly one paragraph whose trimmed
    text is the country and exactly one whose trimmed text is the state, the
    two names different, the state header holding the state name alone and
    followed by a paragraph, archiving two records that are not duplicates
    appends both, keeps one country header and one state header, and puts
    each coordinate line right after the state header: the line archived
    second stands before the line archived first. *)
Theorem archive_two_under_headers (pre post : Docs.body) (S N : Docs.para)
    (snt : list (list request)) (url1 url2 : str) (lat1 lon1 lat2 lon2 : Q)
    (country state : str) :
  let sv := {| Docs.doc := pre ++ S :: N :: post; Docs.sent := snt |} in
  let r1 := archive_location url1 lat1 lon1 country state sv in
  let r2 := archive_location url2 lat2 lon2 country state (snd r1) in
  Docs.wf (Docs.doc sv) -> Docs.ptext S = state -> country <> state ->
  is_header state S = true ->
  length (filter (is_header country) (Docs.doc sv)) = 1%nat ->
  length (filter (is_header state) (Docs.doc sv)) = 1%nat ->
  location_exists_in_doc (Docs.get sv) lat1 lon1 url1 = false ->
  location_exists_in_doc (Docs.get (snd r1)) lat2 lon2 url2 = false ->
  fst r1 = ok Appended /\ fst r2 = ok Appended /\
  Docs.doc (snd r2)
  = pre ++ S :: coordinate_line lat2 lon2 :: coordinate_line lat1 lon1 :: N :: post /\
  length (filter (is_header country) (Docs.doc (snd r2))) = 1%nat /\
  length (filter (is_header state) (Docs.doc (snd r2))) = 1%nat.
Proof.
  intros sv r1 r2 Hwf HS Hcs HhS Hc Hs Hd1 Hd2.
  destruct (archive_under_headers pre post S N snt url1 lat1 lon1 country state
              Hwf HS Hcs HhS Hc Hs Hd1) as ((snt1 & E1) & Hwf1 & Hc1 & Hs1).
  fold sv in E1. fold r1 in E1. unfold r2. revert Hd2. rewrite E1. cbn [fst snd].
  intros Hd2.
  destruct (archive_under_headers pre (N :: post) S (coordinate_line lat1 lon1)
              snt1 url2 lat2 lon2 country state
              Hwf1 HS Hcs HhS Hc1 Hs1 Hd2) as ((snt2 & E2) & Hwf2 & Hc2 & Hs2).
  rewrite E2. cbn [fst snd Docs.doc]. auto.
Qed.

Lemma archive_two_under_headers_witness :
  let sv1 := snd (archive_location (s "https://maps/1") 37.7749 (-122.4194)
                    (s "United States") (s "California") headed_document) in
  let sv2 := snd (archive_location (s "https://maps/2") 38.5 (-121.25)
                    (s "United States") (s "California") sv1) in
  Docs.doc sv2
  = [ {| Docs.pstyle := HEADING_1; Docs.ptext := s "United States" |};
      {| Docs.pstyle := HEADING_2; Docs.ptext := s "California" |};
      coordinate_line 38.5 (-121.25); coordinate_line 37.7749 (-122.4194);
      {| Docs.pstyle := NORMAL_TEXT; Docs.ptext := [] |} ].
Proof.
  apply (archive_two_under_headers
           [ {| Docs.pstyle := HEADING_1; Docs.ptext := s "United States" |} ] []
           {| Docs.pstyle := HEADING_2; Docs.ptext := s "California" |}
           {| Docs.pstyle := NORMAL_TEXT; Docs.ptext := [] |}
           [] (s "https://maps/1") (s "https://maps/2")
           37.7749 (-122.4194) 38.5 (-121.25)
           (s "United States") (s "California")).
  - repeat constructor; cbn [Docs.ptext]; no_newline_tac.
  - reflexivity.
  - discriminate.
  - reflexivity.
  - reflexivity.
  - reflexivity.
  - vm_compute. reflexivity.
  - vm_compute. reflexivity.
Defined.

(** C5 on a document that has the state header but not the country header:
    the country line is inserted at index 1, which moves the state header
    from 7 to 16, yet the coordinate line is inserted at 7 + 6 + 1 = 14, the
    place computed from the index read before the batch.  The line lands
    inside the paragraph "India", not after the state header, which ends at
    23. *)
Theorem stale_state_index :
  let url := s "https://maps/lahore" in
  archive_requests (Docs.get punjab_document) url 31.5 74.25
    (s "Pakistan") (s "Punjab")
  = [ InsertText 1 (s "Pakistan" ++ [newline]);
      UpdateParagraphStyle 1 10 HEADING_1;
      InsertText 14 (s "31.500000, 74.250000" ++ [newline]);
      UpdateTextStyle 14 34 url;
      UpdateParagraphStyle 14 35 NORMAL_TEXT ]
  /\ find_headers (Docs.get punjab_document) (s "Pakistan") (s "Punjab")
     = (None, Some 7)
  /\ map (fun p => (Docs.pstyle p, Docs.ptext p))
       (Docs.doc (snd (archive_location url 31.5 74.25 (s "Pakistan") (s "Punjab")
                         punjab_document)))
     = [ (HEADING_1, s "Pakistan");
         (NORMAL_TEXT, s "Indi31.500000, 74.250000");
         (HEADING_1, s "a");
         (HEADING_2, s "Punjab");
         (NORMAL_TEXT, s "30.900000, 75.850000");
         (NORMAL_TEXT, []) ].
Proof. vm_compute. repeat split. Qed.

(** * Further properties *)

(** ** [extract_coordinates] *)

(** The [!3d ... !4d] pattern matches at the marker [!3d] followed by a
    numeral, the marker [!4d] and a numeral that no digit follows. *)
Lemma match_pin_pattern (n1 n2 : bool) (i1 f1 i2 f2 post : str) :
  all_digits i1 = true -> all_digits f1 = true ->
  all_digits i2 = true -> all_digits f2 = true ->
  starts_with_digit post = false ->
  match_here pin_pattern
    (s "!3d" ++ numeral n1 i1 f1 ++ s "!4d" ++ numeral n2 i2 f2 ++ post) [] []
  = Some [numeral n1 i1 f1; numeral n2 i2 f2].
Proof.
  intros Hi1 Hf1 Hi2 Hf2 Hpost.
  do 3 (apply match_here_one; [reflexivity|]).
  apply (match_number_group
           ([One (Chr "!"); One (Chr "4"); One (Chr "d")] ++ number_group));
    auto.
  do 3 (apply match_here_one; [reflexivity|]).
  apply (match_number_group []); auto.
Qed.

(** X1.  A URL in which the [@] pattern matches nowhere and that holds
    [!3d<lat>!4d<lon>] gives the pair of these two numbers: the second
    pattern is tried when the first one fails.  The occurrence is the first
    one the pattern matches, and no digit follows [<lon>]. *)
Theorem extract_pin_form (pre post : str) (n1 n2 : bool) (i1 f1 i2 f2 : str) :
  let url :=
    pre ++ s "!3d" ++ numeral n1 i1 f1 ++ s "!4d" ++ numeral n2 i2 f2 ++ post in
  all_digits i1 = true -> all_digits f1 = true ->
  all_digits i2 = true -> all_digits f2 = true ->
  starts_with_digit post = false ->
  search at_pattern url = None ->
  no_match_before pin_pattern url (length pre) = true ->
  extract_coordinates url = ok (decimal_value n1 i1 f1, decimal_value n2 i2 f2).
Proof.
  intros url H1 H2 H3 H4 Hpost Hat Hpre.
  assert (Hs : search pin_pattern url = Some [numeral n1 i1 f1; numeral n2 i2 f2]).
  { unfold url. rewrite search_skip by exact Hpre.
    apply search_hit. now apply match_pin_pattern. }
  unfold extract_coordinates, patterns, extract_loop.
  rewrite (try_pattern_no_match _ _ Hat).
  now rewrite (try_pattern_numerals _ _ _ _ _ _ _ _ Hs).
Qed.

Lemma extract_pin_form_witness :
  extract_coordinates
    (s "https://www.google.com/maps/place/X/data=!3m1!4b1!3d48.858400!4d-2.294500?hl=en")
  = ok (decimal_value false (s "48") (s "858400"),
        decimal_value true (s "2") (s "294500")).
Proof.
  apply (extract_pin_form (s "https://www.google.com/maps/place/X/data=!3m1!4b1")
           (s "?hl=en") false true (s "48") (s "858400") (s "2") (s "294500"));
    vm_compute; reflexivity.
Defined.

(** X2.  [extract_coordinates] fails exactly when neither pattern matches
    anywhere in the URL, and the only exception it raises is the
    [ValueError] whose message ends with the URL. *)
Theorem extract_fails_iff_no_match (url : str) :
  (extract_coordinates url = inl (extraction_failure url) <->
   search at_pattern url = None /\ search pin_pattern url = None) /\
  (forall e, extract_coordinates url = inl e ->
     e = Raise ValueError
           (s "Could not extract valid coordinates from URL: " ++ url)).
Proof.
  assert (Hhit : forall p, In p patterns -> forall m, search p url = Some m ->
            exists pair, try_pattern p url = Some (ok pair)).
  { intros p Hp m Hs.
    destruct (search_patterns_sound p url m Hp Hs)
      as (n1 & i1 & f1 & n2 & i2 & f2 & -> & H1 & H2 & H3 & H4 & _).
    exists (decimal_value n1 i1 f1, decimal_value n2 i2 f2).
    now apply try_pattern_numerals. }
  unfold extract_coordinates, patterns, extract_loop.
  destruct (search at_pattern url) as [m1|] eqn:E1.
  - destruct (Hhit at_pattern (or_introl eq_refl) m1 E1) as [pair ->].
    split; [split; [discriminate|intros [? _]; discriminate]|discriminate].
  - rewrite (try_pattern_no_match _ _ E1).
    destruct (search pin_pattern url) as [m2|] eqn:E2.
    + destruct (Hhit pin_pattern (or_intror (or_introl eq_refl)) m2 E2)
        as [pair ->].
      split; [split; [discriminate|intros [_ ?]; discriminate]|discriminate].
    + rewrite (try_pattern_no_match _ _ E2).
      split; [split; auto|]. now intros e [= <-].
Qed.

Lemma extract_fails_iff_no_match_witness :
  extract_coordinates (s "https://www.google.com/maps/search/cafe")
  = inl (extraction_failure (s "https://www.google.com/maps/search/cafe")).
Proof.
  apply (proj1 (extract_fails_iff_no_match
                  (s "https://www.google.com/maps/search/cafe"))).
  split; reflexivity.
Defined.

(** ** [get_location_info] *)

Lemma last_with_some (tag : str) (comps : list component) (c : component) :
  last_with tag comps = Some c -> In c comps /\ has_type tag c = true.
Proof.
  unfold last_with. intros H. apply find_some in H as [Hin Hc].
  split; [now apply in_rev|exact Hc].
Qed.

(** X3.  Whenever [get_location_info] returns a pair, both names are
    non-empty, the reply was no HTTP error and had the status "OK", and each
    name is the long name of a component of the first result whose types
    include "country", respectively "administrative_area_level_1". *)
Theorem resolver_success_names (reply : http_reply) (country state : str) :
  get_location_info reply = ok (country, state) ->
  country <> [] /\ state <> [] /\
  exists code data first others c a,
    reply = Reply code (Some data) /\ http_error_status code = false /\
    status data = Some (s "OK") /\ results data = Some (first :: others) /\
    In c (address_components first) /\ has_type (s "country") c = true /\
    long_name c = country /\
    In a (address_components first) /\
    has_type (s "administrative_area_level_1") a = true /\
    long_name a = state.
Proof.
  intros H. destruct reply as [|code [data|]]; try discriminate;
    unfold get_location_info in H;
    destruct (http_error_status code) eqn:Hcode; try discriminate.
  destruct (opt_str_eqb (status data) (s "OK")) eqn:Hst; [|discriminate].
  cbn [negb] in H.
  destruct (results data) as [[|first others]|] eqn:Hrs; try discriminate.
  rewrite scan_components in H.
  destruct (last_with (s "country") (address_components first)) as [c|] eqn:Hc;
    [|discriminate].
  destruct (last_with (s "administrative_area_level_1")
              (address_components first)) as [a|] eqn:Ha;
    cbn [option_map] in H; [|destruct (long_name c); discriminate].
  destruct (long_name c) as [|x cn] eqn:Ecn; [discriminate|].
  destruct (long_name a) as [|y an] eqn:Ean; [discriminate|].
  injection H as <- <-.
  apply last_with_some in Hc as [Hc1 Hc2], Ha as [Ha1 Ha2].
  split; [discriminate|]. split; [discriminate|].
  exists code, data, first, others, c, a.
  repeat split; auto.
  destruct (status data) as [u|]; [|discriminate]. cbn in Hst.
  apply str_eqb_eq in Hst. now subst.
Qed.

Lemma resolver_success_names_witness :
  exists code data first others c a,
    ok_reply 200 [two_countries] = Reply code (Some data) /\
    http_error_status code = false /\
    status data = Some (s "OK") /\ results data = Some (first :: others) /\
    In c (address_components first) /\ has_type (s "country") c = true /\
    long_name c = s "Germany" /\
    In a (address_components first) /\
    has_type (s "administrative_area_level_1") a = true /\
    long_name a = s "Bavaria".
Proof.
  exact (proj2 (proj2 (resolver_success_names (ok_reply 200 [two_countries])
                         (s "Germany") (s "Bavaria") eq_refl))).
Defined.

(** X4.  A component with an empty long name counts as missing: when the
    last component of type "country" of the first result, or the last one of
    type "administrative_area_level_1", has the empty name, the resolver
    raises its error for missing information, whatever the components
    before it hold. *)
Theorem resolver_empty_name_is_missing (code : Z) (first : geocode_result)
    (others : list geocode_result) (c : component) :
  http_error_status code = false ->
  last_with (s "country") (address_components first) = Some c \/
  last_with (s "administrative_area_level_1") (address_components first) = Some c ->
  long_name c = [] ->
  get_location_info (ok_reply code (first :: others)) = inl incomplete_location.
Proof.
  intros Hcode H Hname. rewrite get_location_info_first by assumption.
  destruct H as [H|H]; rewrite H.
  - rewrite Hname.
    now destruct (last_with (s "administrative_area_level_1")
                    (address_components first)).
  - destruct (last_with (s "country") (address_components first)) as [c0|];
      [|reflexivity].
    rewrite Hname. now destruct (long_name c0).
Qed.

Lemma resolver_empty_name_is_missing_witness :
  get_location_info
    (ok_reply 200
       [ {| address_components :=
              [ {| types := [s "country"]; long_name := s "France" |};
                {| types := [s "administrative_area_level_1"];
                   long_name := s "Normandy" |};
                {| types := [s "country"]; long_name := [] |} ] |} ])
  = inl incomplete_location.
Proof.
  apply (resolver_empty_name_is_missing 200 _ []
           {| types := [s "country"]; long_name := [] |});
    [reflexivity|left; reflexivity|reflexivity].
Defined.

(** ** The duplicate check and the batch *)

Lemma starts_with_app_l (x t b : str) :
  starts_with x t = true -> starts_with x (t ++ b) = true.
Proof.
  revert t; induction x as [|c x IH]; intros t H; [reflexivity|].
  destruct t as [|d t]; [discriminate|]. simpl in *.
  apply andb_true_iff in H as [H1 H2]. now rewrite H1, IH.
Qed.

Lemma contains_app_l (x t b : str) :
  contains x t = true -> contains x (t ++ b) = true.
Proof.
  induction t as [|d t IH]; intros H.
  - simpl in H. rewrite orb_false_r in H.
    destruct x; [|discriminate]. destruct b; reflexivity.
  - change (contains x (d :: t ++ b) = true). cbn [contains] in *.
    apply orb_true_iff in H as [H|H].
    + change (d :: t ++ b) with ((d :: t) ++ b).
      now rewrite (starts_with_app_l _ _ b H).
    + rewrite (IH H). apply orb_true_r.
Qed.



(** X6.  The duplicate check is a substring test: a coordinate whose text
    stands inside the text of a coordinate line of the document is skipped,
    although it is another place. *)
Theorem contained_coordinate_is_skipped (url : str) (lat lon lat' lon' : Q)
    (country state : str) (sv : Docs.service) :
  contains (search_text lat lon) (search_text lat' lon') = true ->
  In (coordinate_line lat' lon') (Docs.doc sv) ->
  archive_location url lat lon country state sv = (ok SkippedDuplicate, sv).
Proof.
  intros Hc Hin. unfold archive_location. rewrite location_exists_rendered.
  replace (existsb _ (Docs.doc sv)) with true; [reflexivity|].
  symmetry. apply existsb_exists. exists (coordinate_line lat' lon').
  split; [exact Hin|]. apply orb_true_iff. left.
  unfold rendered_text, coordinate_line. cbn [Docs.ptext].
  now apply contains_app_l.
Qed.

Lemma contained_coordinate_is_skipped_witness :
  archive_location (s "https://www.google.com/maps/@7.774900,-122.419400,3a")
    7.7749 (-122.4194) (s "Mexico") (s "Revillagigedo") after_first_archive
  = (ok SkippedDuplicate, after_first_archive).
Proof.
  apply (contained_coordinate_is_skipped _ 7.7749 (-122.4194) 37.7749 (-122.4194)).
  - vm_compute. reflexivity.
  - vm_compute. right. right. left. reflexivity.
Defined.

(** X7.  A batch holds the three coordinate requests and, before them, two
    requests for each header the search did not find: one to three text
    insertions, three to seven requests. *)
Theorem batch_size (doc_content : list StructuralElement) (url : str)
    (lat lon : Q) (country state : str) :
  let rs := archive_requests doc_content url lat lon country state in
  let missing := missing_headers (find_headers doc_content country state) in
  count_inserts rs = (1 + missing)%nat /\ length rs = (3 + 2 * missing)%nat.
Proof.
  unfold archive_requests.
  destruct (find_headers doc_content country state) as [[ci|] [si|]];
    split; reflexivity.
Qed.

(** X8.  The last three requests of every batch insert the coordinate text
    with its newline at the index [state index + len(state) + 1], link the
    text without the newline to the URL, and style the text with the newline
    as NORMAL_TEXT.  The state index is the one found in the document, or
    else the index at which the batch inserts the state header: the country
    index (found, or 1) [+ len(country) + 1]. *)
Theorem coordinate_requests_form (doc_content : list StructuralElement)
    (url : str) (lat lon : Q) (country state : str) :
  let found := find_headers doc_content country state in
  let country_index := match fst found with Some i => i | None => 1 end in
  let state_index :=
    match snd found with
    | Some i => i
    | None => country_index + len country + 1
    end in
  let ci := state_index + len state + 1 in
  exists headers,
    archive_requests doc_content url lat lon country state
    = headers ++
      [InsertText ci (search_text lat lon ++ [newline]);
       UpdateTextStyle ci (ci + len (search_text lat lon)) url;
       UpdateParagraphStyle ci (ci + len (search_text lat lon) + 1) NORMAL_TEXT].
Proof.
  unfold archive_requests.
  rewrite strip_coord_text, coord_text_line.
  replace (len (search_text lat lon ++ [newline]))
    with (len (search_text lat lon) + 1) by (rewrite len_app; reflexivity).
  destruct (find_headers doc_content country state) as [[ci|] [si|]];
    cbn [fst snd]; rewrite !Z.add_assoc; eexists; reflexivity.
Qed.

(** X9.  When the country and the state have the same name, the search
    never finds the state header: a paragraph with that name counts as the
    country header only.  Every batch then inserts a state header, also when
    the document has one. *)
Theorem same_name_state_never_found (doc_content : list StructuralElement)
    (url : str) (lat lon : Q) (name : str) :
  snd (find_headers doc_content name name) = None /\
  exists i,
    In (InsertText i (name ++ [newline]))
       (archive_requests doc_content url lat lon name name) /\
    In (UpdateParagraphStyle i (i + len name + 1) HEADING_2)
       (archive_requests doc_content url lat lon name name).
Proof.
  assert (H : snd (find_headers doc_content name name) = None).
  { unfold find_headers.
    assert (G : forall acc, snd acc = None ->
              snd (fold_left (scan_header name name) doc_content acc) = None).
    { induction doc_content as [|el l IH]; intros acc Hacc; [exact Hacc|].
      cbn [fold_left]. apply IH. unfold scan_header.
      destruct (paragraph el) as [p|]; [|exact Hacc].
      now destruct (str_eqb (strip (paragraph_text p)) name). }
    now apply G. }
  split; [exact H|].
  unfold archive_requests.
  destruct (find_headers doc_content name name) as [[ci|] [si|]];
    cbn [snd] in H; try discriminate.
  - exists (ci + len name + 1). split; [now left|right; now left].
  - exists (1 + len name + 1). split; cbn [app]; [do 2 right; now left|].
    do 3 right. now left.
Qed.

(** ** Where the batch puts its lines *)

Section Placement.

Import Docs.

Variables country state : str.

Lemma scan_keeps_country_index (b : body) :
  Forall (fun p => is_header country p = false) b ->
  forall start acc,
  fst (fold_left (scan_header country state) (render_from start b) acc) = fst acc.
Proof.
  intros H; induction H as [|p b Hp _ IH]; intros start acc; [reflexivity|].
  cbn [render_from fold_left]. rewrite IH, scan_rendered, Hp.
  now destruct (is_header state p).
Qed.

Lemma find_headers_rendered (sv : service) :
  find_headers (get sv) country state
  = fold_left (scan_header country state) (render_from 1 (doc sv)) (None, None).
Proof. reflexivity. Qed.

(** The two requests that add a header line at the start of the paragraph
    [N]. *)
Lemma append_label (pre post : body) (N : para) (x : str) (st : named_style)
    (i z : Z) (rest : list request) :
  no_newline x -> no_newline (ptext N) ->
  i = body_end 1 pre -> z = i + len x + 1 ->
  apply_requests (pre ++ N :: post)
    (InsertText i (x ++ [newline]) :: UpdateParagraphStyle i z st :: rest)
  = apply_requests (pre ++ {| pstyle := st; ptext := x |} :: N :: post) rest.
Proof.
  intros Hx HN -> ->. cbn [apply_requests].
  replace (body_end 1 pre) with (body_end 1 pre + Z.of_nat 0) at 1 by (simpl; lia).
  rewrite insert_line by (auto; lia).
  cbn [firstn skipn app].
  pose proof (restyle_line pre N post 0 x (pstyle N) st (body_end 1 pre)) as Hr.
  cbn [firstn skipn app] in Hr. rewrite Hr by (simpl; lia).
  now destruct N.
Qed.

Lemma wf_para (b : body) (p : para) : wf b -> In p b -> no_newline (ptext p).
Proof. unfold wf. rewrite Forall_forall. intros H Hin. exact (H p Hin). Qed.

End Placement.

(** X10.  Of several paragraphs whose trimmed text is the state, the search
    keeps the last one: the coordinate line is inserted at the index that
    follows the text of that paragraph, whatever stands before it. *)
Theorem last_state_header_wins (pre post : Docs.body) (S : Docs.para)
    (snt : list (list request)) (url : str) (lat lon : Q) (country state : str) :
  let sv := {| Docs.doc := pre ++ S :: post; Docs.sent := snt |} in
  is_header country S = false -> is_header state S = true ->
  Forall (fun p => is_header state p = false) post ->
  snd (find_headers (Docs.get sv) country state) = Some (Docs.body_end 1 pre) /\
  In (InsertText (Docs.body_end 1 pre + len state + 1) (coord_text lat lon))
     (archive_requests (Docs.get sv) url lat lon country state).
Proof.
  intros sv HSc HS Hpost.
  assert (H : snd (find_headers (Docs.get sv) country state)
              = Some (Docs.body_end 1 pre)).
  { rewrite find_headers_rendered. unfold sv. cbn [Docs.doc].
    rewrite scan_app. cbn [Docs.render_from fold_left].
    rewrite scan_keeps_state by assumption.
    now rewrite scan_rendered, HSc, HS. }
  split; [exact H|].
  unfold archive_requests.
  destruct (find_headers (Docs.get sv) country state) as [[ci|] [si|]];
    cbn [snd] in H; try discriminate; injection H as ->.
  - now left.
  - do 2 right. now left.
Qed.

Lemma last_state_header_wins_witness :
  In (InsertText 19 (coord_text 38.5 (-121.25)))
     (archive_requests
        (Docs.get
           {| Docs.doc :=
                [ {| Docs.pstyle := HEADING_2; Docs.ptext := s "Victoria" |};
                  {| Docs.pstyle := HEADING_2; Docs.ptext := s " Victoria" |};
                  {| Docs.pstyle := NORMAL_TEXT; Docs.ptext := [] |} ];
              Docs.sent := [] |})
        (s "https://maps/3") 38.5 (-121.25) (s "Australia") (s "Victoria")).
Proof.
  exact (proj2 (last_state_header_wins
           [ {| Docs.pstyle := HEADING_2; Docs.ptext := s "Victoria" |} ]
           [ {| Docs.pstyle := NORMAL_TEXT; Docs.ptext := [] |} ]
           {| Docs.pstyle := HEADING_2; Docs.ptext := s " Victoria" |}
           [] (s "https://maps/3") 38.5 (-121.25) (s "Australia") (s "Victoria")
           eq_refl eq_refl ltac:(repeat constructor))).
Defined.

(** The call on a document without the two headers. *)
Lemma archive_on_document_without_headers (N : Docs.para) (rest : Docs.body)
    (snt : list (list request)) (url : str) (lat lon : Q) (country state : str) :
  let sv := {| Docs.doc := N :: rest; Docs.sent := snt |} in
  let r := archive_location url lat lon country state sv in
  Docs.wf (N :: rest) -> no_newline country -> no_newline state ->
  Forall (fun p => is_header country p = false /\ is_header state p = false)
    (N :: rest) ->
  location_exists_in_doc (Docs.get sv) lat lon url = false ->
  fst r = ok Appended /\
  Docs.doc (snd r)
  = {| Docs.pstyle := HEADING_1; Docs.ptext := country |}
    :: {| Docs.pstyle := HEADING_2; Docs.ptext := state |}
    :: coordinate_line lat lon :: N :: rest.
Proof.
  intros sv r Hwf Hc Hs Hno Hdup.
  assert (Hf : find_headers (Docs.get sv) country state = (None, None)).
  { rewrite find_headers_rendered.
    assert (H1 : Forall (fun p => is_header country p = false) (N :: rest))
      by (eapply Forall_impl; [|exact Hno]; now intros p [? ?]).
    assert (H2 : Forall (fun p => is_header state p = false) (N :: rest))
      by (eapply Forall_impl; [|exact Hno]; now intros p [? ?]).
    pose proof (scan_keeps_country_index country state _ H1 1 (None, None)) as F1.
    pose proof (scan_keeps_state country state _ H2 1 (None, None)) as F2.
    unfold sv. cbn [Docs.doc].
    destruct (fold_left _ _ _) as [a b]. cbn [fst snd] in *. congruence. }
  assert (HN : no_newline (Docs.ptext N)) by (apply (wf_para _ _ Hwf); now left).
  unfold r, archive_location. rewrite Hdup.
  unfold archive_requests. rewrite Hf. cbn [app].
  unfold Docs.batchUpdate. unfold sv. cbn [Docs.doc Docs.sent].
  rewrite (append_label [] rest N country HEADING_1)
    by (auto; cbn [Docs.body_end]; lia).
  cbn [app].
  rewrite (append_label [ {| Docs.pstyle := HEADING_1; Docs.ptext := country |} ]
             rest N state HEADING_2)
    by (auto; cbn [Docs.body_end Docs.ptext]; unfold Docs.para_end;
        cbn [Docs.ptext]; lia).
  cbn [app].
  fold (coord_step (1 + len country + 1 + len state + 1) lat lon url).
  change (1 + len country + 1 + len state + 1)
    with (Docs.body_end 1
            [ {| Docs.pstyle := HEADING_1; Docs.ptext := country |};
              {| Docs.pstyle := HEADING_2; Docs.ptext := state |} ]).
  pose proof (append_coordinate
                [ {| Docs.pstyle := HEADING_1; Docs.ptext := country |};
                  {| Docs.pstyle := HEADING_2; Docs.ptext := state |} ]
                rest N lat lon url HN) as Ha.
  cbn [app] in Ha. rewrite Ha. split; reflexivity.
Qed.

(** X11.  In a document where no paragraph is the country header or the
    state header, an archived record that is no duplicate puts three
    paragraphs at the top of the document, before everything it held: the
    country as HEADING_1, the state as HEADING_2 and the coordinate text as
    NORMAL_TEXT. *)
Theorem archive_without_headers (N : Docs.para) (rest : Docs.body)
    (snt : list (list request)) (url : str) (lat lon : Q) (country state : str) :
  let sv := {| Docs.doc := N :: rest; Docs.sent := snt |} in
  let r := archive_location url lat lon country state sv in
  Docs.wf (N :: rest) -> no_newline country -> no_newline state ->
  Forall (fun p => is_header country p = false /\ is_header state p = false)
    (N :: rest) ->
  location_exists_in_doc (Docs.get sv) lat lon url = false ->
  fst r = ok Appended /\
  map (fun p => (Docs.pstyle p, Docs.ptext p)) (Docs.doc (snd r))
  = (HEADING_1, country) :: (HEADING_2, state)
    :: (NORMAL_TEXT, search_text lat lon)
    :: map (fun p => (Docs.pstyle p, Docs.ptext p)) (N :: rest).
Proof.
  intros sv r Hwf Hc Hs Hno Hdup.
  destruct (archive_on_document_without_headers N rest snt url lat lon
              country state Hwf Hc Hs Hno Hdup) as [H1 H2].
  split; [exact H1|]. fold sv in H2. fold r in H2. now rewrite H2.
Qed.

Lemma archive_without_headers_witness :
  map (fun p => (Docs.pstyle p, Docs.ptext p)) (Docs.doc after_first_archive)
  = [ (HEADING_1, s "United States"); (HEADING_2, s "California");
      (NORMAL_TEXT, s "37.774900, -122.419400"); (NORMAL_TEXT, []) ].
Proof.
  exact (proj2 (archive_without_headers
             {| Docs.pstyle := NORMAL_TEXT; Docs.ptext := [] |} [] []
             (s "https://www.google.com/maps/@37.774900,-122.419400,3a")
             37.7749 (-122.4194) (s "United States") (s "California")
             ltac:(repeat constructor; intros [])
             ltac:(no_newline_tac) ltac:(no_newline_tac)
             ltac:(repeat constructor) ltac:(vm_compute; reflexivity))).
Defined.

(** X12.  When the country header is in the document, holding the country
    name alone and followed by a paragraph, and no paragraph is the state
    header, an archived record that is no duplicate puts the state as
    HEADING_2 right after the country header, and the coordinate text as
    NORMAL_TEXT right after the state. *)
Theorem archive_under_country (pre post : Docs.body) (C N : Docs.para)
    (snt : list (list request)) (url : str) (lat lon : Q) (country state : str) :
  let sv := {| Docs.doc := pre ++ C :: N :: post; Docs.sent := snt |} in
  let r := archive_location url lat lon country state sv in
  Docs.wf (pre ++ C :: N :: post) -> Docs.ptext C = country -> no_newline state ->
  is_header country C = true ->
  Forall (fun p => is_header country p = false) (N :: post) ->
  Forall (fun p => is_header state p = false) (pre ++ C :: N :: post) ->
  location_exists_in_doc (Docs.get sv) lat lon url = false ->
  fst r = ok Appended /\
  Docs.doc (snd r)
  = pre ++ C :: {| Docs.pstyle := HEADING_2; Docs.ptext := state |}
        :: coordinate_line lat lon :: N :: post.
Proof.
  intros sv r Hwf HC Hs HhC Hlast Hnos Hdup.
  assert (Hf : find_headers (Docs.get sv) country state
               = (Some (Docs.body_end 1 pre), None)).
  { rewrite find_headers_rendered. unfold sv. cbn [Docs.doc].
    pose proof (scan_keeps_state country state _ Hnos 1 (None, None)) as F2.
    set (A := fold_left (scan_header country state)
                (Docs.render_from 1 pre) (None, None)).
    pose proof (scan_keeps_country_index country state _ Hlast
                  (Docs.para_end (Docs.body_end 1 pre) C)
                  (scan_header country state A
                     (Docs.render_para (Docs.body_end 1 pre) C))) as F1.
    rewrite scan_app in F2 |- *. fold A in F2 |- *.
    cbn [Docs.render_from fold_left] in F1, F2 |- *.
    rewrite (scan_rendered country state A (Docs.body_end 1 pre) C), HhC
      in F1, F2 |- *.
    cbn [fst snd] in F1.
    destruct (fold_left _ (Docs.render_from _ post) _) as [a b].
    cbn [fst snd] in *. congruence. }
  assert (HN : no_newline (Docs.ptext N)).
  { apply (wf_para _ _ Hwf). apply in_or_app. right. right. now left. }
  unfold r, archive_location. rewrite Hdup.
  unfold archive_requests. rewrite Hf. cbn [app].
  unfold Docs.batchUpdate. unfold sv. cbn [Docs.doc Docs.sent].
  replace (pre ++ C :: N :: post) with ((pre ++ [C]) ++ N :: post)
    by (rewrite <- app_assoc; reflexivity).
  assert (EC : Docs.body_end 1 (pre ++ [C]) = Docs.body_end 1 pre + len country + 1).
  { rewrite body_end_app. cbn [Docs.body_end]. unfold Docs.para_end.
    now rewrite HC. }
  rewrite (append_label (pre ++ [C]) post N state HEADING_2) by auto.
  set (S' := {| Docs.pstyle := HEADING_2; Docs.ptext := state |}).
  fold (coord_step (Docs.body_end 1 pre + len country + 1 + len state + 1)
          lat lon url).
  replace ((pre ++ [C]) ++ S' :: N :: post) with ((pre ++ [C; S']) ++ N :: post)
    by (rewrite <- !app_assoc; reflexivity).
  replace (Docs.body_end 1 pre + len country + 1 + len state + 1)
    with (Docs.body_end 1 (pre ++ [C; S']))
    by (rewrite body_end_app; cbn [Docs.body_end]; unfold Docs.para_end;
        rewrite HC; reflexivity).
  rewrite append_coordinate by assumption.
  rewrite <- !app_assoc. split; reflexivity.
Qed.

Lemma archive_under_country_witness :
  map Docs.ptext
    (Docs.doc (snd (archive_location (s "https://maps/4") 40.7128 (-74.006)
                      (s "United States") (s "New York") after_first_archive)))
  = [ s "United States"; s "New York"; s "40.712800, -74.006000";
      s "California"; s "37.774900, -122.419400"; [] ].
Proof.
  pose proof (proj2 (archive_under_country []
             [ coordinate_line 37.7749 (-122.4194);
               {| Docs.pstyle := NORMAL_TEXT; Docs.ptext := [] |} ]
             {| Docs.pstyle := HEADING_1; Docs.ptext := s "United States" |}
             {| Docs.pstyle := HEADING_2; Docs.ptext := s "California" |}
             (Docs.sent after_first_archive)
             (s "https://maps/4") 40.7128 (-74.006)
             (s "United States") (s "New York")
             ltac:(repeat constructor; cbn; no_newline_tac)
             eq_refl ltac:(no_newline_tac) eq_refl
             ltac:(repeat constructor) ltac:(repeat constructor)
             ltac:(vm_compute; reflexivity))) as H.
  apply (f_equal (map Docs.ptext)) in H. exact H.
Defined.

(** ** How many paragraphs a batch adds *)

Lemma archive_requests_headers (doc_content : list StructuralElement)
    (url : str) (lat lon : Q) (country state : str) :
  exists hs ci,
    archive_requests doc_content url lat lon country state
    = concat (map label_step hs) ++ coord_step ci lat lon url /\
    length hs = missing_headers (find_headers doc_content country state) /\
    Forall (fun h => let '(_, x, _) := h in x = country \/ x = state) hs.
Proof.
  unfold archive_requests.
  destruct (find_headers doc_content country state) as [[ci|] [si|]].
  - exists [], (si + len state + 1). repeat split. constructor.
  - exists [(ci + len country + 1, state, HEADING_2)],
      (ci + len country + 1 + len state + 1).
    repeat split. repeat (apply Forall_cons || apply Forall_nil); auto.
  - exists [(1, country, HEADING_1)], (si + len state + 1).
    split; [|split; [reflexivity|repeat (apply Forall_cons || apply Forall_nil); auto]].
    cbn [map concat label_step app]. do 3 f_equal. lia.
  - exists [(1, country, HEADING_1); (1 + len country + 1, state, HEADING_2)],
      (1 + len country + 1 + len state + 1).
    split; [|split; [reflexivity|repeat (apply Forall_cons || apply Forall_nil); auto]].
    cbn [map concat label_step app]. do 3 f_equal. lia.
Qed.

Lemma label_steps_length (hs : list (Z * str * named_style))
    (rest : list request) :
  Forall (fun h => let '(_, y, _) := h in no_newline y) hs ->
  forall b r,
  Docs.wf b ->
  Docs.apply_requests b (concat (map label_step hs) ++ rest) = Some r ->
  exists b', Docs.wf b' /\ length b' = (length b + length hs)%nat /\
             Docs.apply_requests b' rest = Some r.
Proof.
  intros Hhs; induction Hhs as [|[[i y] st] hs Hy _ IH]; intros b r Hwf H.
  - exists b. auto.
  - cbn [map concat label_step] in H. rewrite <- app_assoc in H.
    cbn [app] in H.
    apply (styled_line_inv b r i y st []) in H; auto.
    destruct H as (pre & P & post & off & -> & Hoff & -> & H).
    apply IH in H; [|now apply wf_cut].
    destruct H as (b' & Hwf' & Hlen & H). exists b'. repeat split; auto.
    rewrite Hlen, !length_app. cbn [length]. lia.
Qed.

(** X13.  An accepted batch adds one paragraph for the coordinate and one
    for each header the search did not find, and nothing else: the document
    grows by one to three paragraphs. *)
Theorem appended_paragraphs (url : str) (lat lon : Q) (country state : str)
    (sv sv1 : Docs.service) :
  Docs.wf (Docs.doc sv) -> no_newline country -> no_newline state ->
  archive_location url lat lon country state sv = (ok Appended, sv1) ->
  length (Docs.doc sv1)
  = (length (Docs.doc sv) + 1
     + missing_headers (find_headers (Docs.get sv) country state))%nat.
Proof.
  intros Hwf Hc Hs H. unfold archive_location in H.
  destruct (location_exists_in_doc (Docs.get sv) lat lon url); [discriminate|].
  unfold Docs.batchUpdate in H.
  destruct (Docs.apply_requests (Docs.doc sv)
              (archive_requests (Docs.get sv) url lat lon country state))
    as [r|] eqn:Ha; [|discriminate].
  injection H as <-. cbn [Docs.doc].
  destruct (archive_requests_headers (Docs.get sv) url lat lon country state)
    as (hs & ci & E & Hlen & Hhs).
  rewrite E in Ha. rewrite <- Hlen.
  apply label_steps_length in Ha; auto.
  - destruct Ha as (b' & Hwf' & Hlen' & Ha).
    unfold coord_step in Ha. rewrite coord_text_line in Ha.
    replace (len (search_text lat lon ++ [newline]))
      with (len (search_text lat lon) + 1) in Ha
      by (rewrite len_app; reflexivity).
    rewrite Z.add_assoc in Ha.
    apply (styled_line_inv b' r ci (search_text lat lon) NORMAL_TEXT
             [UpdateTextStyle ci _ url] []) in Ha;
      auto using search_text_no_newline; [|repeat constructor].
    destruct Ha as (pre & P & post & off & -> & Hoff & -> & Ha).
    injection Ha as <-. rewrite !length_app in *. cbn [length] in *. lia.
  - eapply Forall_impl; [|exact Hhs]. intros [[i y] st] [->| ->]; auto.
Qed.

Lemma appended_paragraphs_witness :
  length (Docs.doc after_first_archive) = 4%nat.
Proof.
  apply (appended_paragraphs
           (s "https://www.google.com/maps/@37.774900,-122.419400,3a")
           37.7749 (-122.4194) (s "United States") (s "California")
           empty_document after_first_archive).
  - repeat constructor. intros [].
  - no_newline_tac.
  - no_newline_tac.
  - vm_compute. reflexivity.
Defined.

(** ** The entry points *)





(** [binary64] on numbers whose floats are known: one tenth is
    3602879701896397 / 2^55; a half and three are kept as they are;
    2^53 + 1, half way between two floats, goes to the even one, 2^53, and
    2^53 + 3 to 2^53 + 4; the smallest subnormal number 2^-1074 is kept and
    a quarter of it is zero; the largest float is kept, and it is the
    bound of [finite_nonzero]. *)
Lemma binary64_examples :
  Qred (binary64 (1 # 10)) = 3602879701896397 # 36028797018963968 /\
  Qred (binary64 (-1 # 10)) = -3602879701896397 # 36028797018963968 /\
  Qred (binary64 (1 # 2)) = 1 # 2 /\
  Qred (binary64 (3 # 1)) = 3 # 1 /\
  binary64 (9007199254740993 # 1) = 9007199254740992 # 1 /\
  binary64 (9007199254740995 # 1) = 9007199254740996 # 1 /\
  Qred (binary64 (1 # Z.to_pos (2 ^ 1074))) = 1 # Z.to_pos (2 ^ 1074) /\
  Qred (binary64 (1 # Z.to_pos (2 ^ 1076))) = 0 # 1 /\
  Qred (binary64 max_binary64) = max_binary64 /\
  finite_nonzero max_binary64 = true /\
  finite_nonzero (2 ^ 1024 # 1) = false /\
  finite_nonzero (1 # Z.to_pos (2 ^ 1076)) = false /\
  finite_nonzero (0 # 1) = false.
Proof. repeat split; vm_compute; reflexivity. Qed.

(** The text written and looked for is the text of the binary64 values:
    37.7749295 and -122.4194155 are kept as numbers just below them, and
    six places of those are 37.774929 and -122.419415, where six places of
    the decimal numbers themselves would be 37.774930 and -122.419416. *)
Lemma search_text_of_binary64 :
  search_text (binary64 (377749295 # 10000000)) (binary64 (-1224194155 # 10000000))
  = s "37.774929, -122.419415" /\
  search_text (377749295 # 10000000) (-1224194155 # 10000000)
  = s "37.774930, -122.419416" /\
  process_url (fun _ _ => located_reply (s "United States") (s "California"))
    (s "https://www.google.com/maps/@37.7749295,-122.4194155,3a")
    {| docs := after_first_archive; geocoded := [] |}
  = ([Processing_URL (s "https://www.google.com/maps/@37.7749295,-122.4194155,3a");
      Extracted_coordinates (binary64 (377749295 # 10000000))
        (binary64 (-1224194155 # 10000000));
      Location (s "California") (s "United States");
      Data_appended; Successfully_archived],
     {| docs :=
          snd (archive_location
                 (s "https://www.google.com/maps/@37.7749295,-122.4194155,3a")
                 (binary64 (377749295 # 10000000))
                 (binary64 (-1224194155 # 10000000))
                 (s "United States") (s "California") after_first_archive);
        geocoded := [(binary64 (377749295 # 10000000),
                      binary64 (-1224194155 # 10000000))] |}).
Proof. repeat split; vm_compute; reflexivity. Qed.



(** X16.  Without the marker "google.com/maps" in the URL of the active
    tab, or without a URL at all, the hotkey entry point prints that no
    valid URL was found and touches neither service. *)
Theorem hotkey_without_marker (geocode : Q -> Q -> http_reply)
    (script : result str) (w : world) :
  (forall url, script = inr url -> contains maps_marker url = false) ->
  hotkey_main geocode script w
  = (Press_your_hotkey :: fst (get_active_browser_url script) ++ [No_valid_URL], w).
Proof.
  intros H. unfold hotkey_main, get_active_browser_url.
  destruct script as [e|[|c u]]; try reflexivity.
  now rewrite (H (c :: u) eq_refl).
Qed.

Lemma hotkey_without_marker_witness :
  hotkey_main (fun _ _ => NoReply) (inr (s "https://example.org/@1.5,2.5"))
    {| docs := empty_document; geocoded := [] |}
  = ([Press_your_hotkey; No_valid_URL],
     {| docs := empty_document; geocoded := [] |}).
Proof.
  apply (hotkey_without_marker (fun _ _ => NoReply)
           (inr (s "https://example.org/@1.5,2.5"))).
  intros url [= <-]. reflexivity.
Defined.

(** X17.  The clipboard entry point processes the first content of the
    clipboard that, once trimmed, holds the marker "google.com/maps", passes
    on the trimmed text, and stops: the contents before it are ignored and
    the ones after it are never read.  It keeps polling as long as no
    content holds the marker. *)
Theorem clipboard_takes_first_marked (geocode : Q -> Q -> http_reply)
    (before later : list str) (pasted : str) (w : world) :
  Forall (fun c => contains maps_marker (strip c) = false) before ->
  (contains maps_marker (strip pasted) = true ->
   clipboard_main geocode (before ++ pasted :: later) w
   = Some (Waiting_for_URL :: fst (process_url geocode (strip pasted) w),
           snd (process_url geocode (strip pasted) w))) /\
  clipboard_main geocode before w = None.
Proof.
  intros Hb. unfold clipboard_main.
  assert (Hskip : forall rest,
            clipboard_loop geocode (before ++ rest) w
            = clipboard_loop geocode rest w).
  { intros rest. induction Hb as [|c l Hc _ IH]; [reflexivity|].
    cbn [app clipboard_loop]. now rewrite Hc. }
  split.
  - intros Hp. rewrite Hskip. cbn [clipboard_loop]. rewrite Hp.
    now destruct (process_url geocode (strip pasted) w).
  - rewrite <- (app_nil_r before), Hskip. reflexivity.
Qed.

Lemma clipboard_takes_first_marked_witness :
  clipboard_main (fun _ _ => NoReply)
    [s "hello"; s "https://example.org/@1.5,2.5";
     s "  https://www.google.com/maps/search/cafe  ";
     s "https://www.google.com/maps/@37.774900,-122.419400,3a"]
    {| docs := empty_document; geocoded := [] |}
  = Some ([Waiting_for_URL;
           Processing_URL (s "https://www.google.com/maps/search/cafe");
           Error (s "Could not extract valid coordinates from URL: https://www.google.com/maps/search/cafe")],
          {| docs := empty_document; geocoded := [] |}).
Proof.
  apply (clipboard_takes_first_marked (fun _ _ => NoReply)
           [s "hello"; s "https://example.org/@1.5,2.5"]
           [s "https://www.google.com/maps/@37.774900,-122.419400,3a"]
           (s "  https://www.google.com/maps/search/cafe  ")).
  - repeat constructor.
  - reflexivity.
Defined.

(** ** From the URL to the document *)

Lemma resolved_names_nonempty (reply : http_reply) (country state : str) :
  get_location_info reply = ok (country, state) -> country <> [] /\ state <> [].
Proof.
  unfold get_location_info. destruct reply as [|code [data|]]; try discriminate;
    destruct (http_error_status code); try discriminate.
  destruct (negb (opt_str_eqb (status data) (s "OK"))); [discriminate|].
  destruct (results data) as [[|first others]|]; try discriminate.
  destruct (fold_left scan_component (address_components first) (None, None))
    as [[[|c cn]|] [[|d sn]|]]; try discriminate.
  intros [= <- <-]. split; discriminate.
Qed.

Lemma contains_one (x : str) (c : ascii) :
  contains x [c] = true -> x = [] \/ x = [c].
Proof.
  destruct x as [|d [|e x]]; auto; cbn.
  - rewrite !orb_false_r, andb_true_r. intros H.
    apply Ascii.eqb_eq in H as ->. now right.
  - now rewrite andb_false_r.
Qed.

(** An empty paragraph holds no coordinate text and no URL with the
    marker. *)
Lemma empty_paragraph_no_duplicate (N : Docs.para) (snt : list (list request))
    (lat lon : Q) (url : str) :
  Docs.ptext N = [] -> contains maps_marker url = true ->
  location_exists_in_doc (Docs.get {| Docs.doc := [N]; Docs.sent := snt |})
    lat lon url = false.
Proof.
  intros HN Hm. rewrite location_exists_rendered. cbn [Docs.doc existsb].
  unfold rendered_text. rewrite HN. cbn [app]. rewrite orb_false_r.
  apply orb_false_iff. split.
  - destruct (contains (search_text lat lon) [newline]) eqn:E; [|reflexivity].
    apply contains_one in E as [E|E].
    + now apply search_text_nonempty in E.
    + exfalso. apply (search_text_no_newline lat lon). rewrite E. now left.
  - destruct (contains url [newline]) eqn:E; [|reflexivity].
    apply contains_one in E as [->| ->]; discriminate Hm.
Qed.

(** X18.  From the URL to the document: for a URL with the marker whose
    coordinates are extracted and resolved to a country and a state (names
    of one line), the hotkey entry point turns a document that holds one
    empty paragraph into the country as HEADING_1, the state as HEADING_2,
    the coordinate text as NORMAL_TEXT and the empty paragraph, after one
    geocoding request, and prints its five lines of progress.  The
    coordinates are the binary64 values of the two numbers of the URL,
    finite and other than zero. *)
Theorem first_url_into_empty_document (geocode : Q -> Q -> http_reply)
    (url : str) (lat lon : Q) (country state : str) (N : Docs.para)
    (snt : list (list request)) (g : list (Q * Q)) :
  let w := {| docs := {| Docs.doc := [N]; Docs.sent := snt |}; geocoded := g |} in
  let r := hotkey_main geocode (inr url) w in
  contains maps_marker url = true ->
  extract_coordinates url = ok (lat, lon) ->
  finite_nonzero lat = true -> finite_nonzero lon = true ->
  get_location_info (geocode (binary64 lat) (binary64 lon)) = ok (country, state) ->
  no_newline country -> no_newline state -> Docs.ptext N = [] ->
  fst r = [Press_your_hotkey; Processing_URL url;
           Extracted_coordinates (binary64 lat) (binary64 lon);
           Location state country; Data_appended; Successfully_archived] /\
  Docs.doc (docs (snd r))
  = [ {| Docs.pstyle := HEADING_1; Docs.ptext := country |};
      {| Docs.pstyle := HEADING_2; Docs.ptext := state |};
      coordinate_line (binary64 lat) (binary64 lon); N ] /\
  geocoded (snd r) = g ++ [(binary64 lat, binary64 lon)].
Proof.
  intros w r Hm Hx _ _ Hg Hc Hs HN.
  destruct (resolved_names_nonempty _ _ _ Hg) as [Hc0 Hs0].
  assert (Hhdr : forall label, label <> [] -> is_header label N = false).
  { intros label Hl. unfold is_header, rendered_text. rewrite HN.
    change (strip ([] ++ [newline])) with (@nil ascii).
    destruct (str_eqb [] label) eqn:E; [|reflexivity].
    apply str_eqb_eq in E. congruence. }
  destruct (archive_on_document_without_headers N [] snt url
              (binary64 lat) (binary64 lon) country state)
    as [Ha1 Ha2]; auto using empty_paragraph_no_duplicate.
  { constructor; [|constructor]. rewrite HN. intros []. }
  unfold r, hotkey_main, get_active_browser_url.
  destruct url as [|c u]; [discriminate Hm|]. rewrite Hm.
  unfold process_url. unfold ok in Hx, Hg. rewrite Hx. cbv zeta. rewrite Hg.
  unfold w. cbn [docs geocoded].
  destruct (archive_location (c :: u) (binary64 lat) (binary64 lon) country state
              {| Docs.doc := [N]; Docs.sent := snt |}) as [[e|o] sv] eqn:Ea;
    cbn [fst snd] in Ha1, Ha2; [discriminate Ha1|].
  injection Ha1 as ->. cbn [fst snd app docs geocoded outcome_line].
  now rewrite Ha2.
Qed.

Lemma first_url_into_empty_document_witness :
  map Docs.ptext
    (Docs.doc (docs (snd (hotkey_main
       (fun _ _ => located_reply (s "United States") (s "California"))
       (inr (s "https://www.google.com/maps/@37.7749295,-122.4194155,3a,75y"))
       {| docs := empty_document; geocoded := [] |}))))
  = [s "United States"; s "California"; s "37.774929, -122.419415"; []].
Proof.
  pose proof (first_url_into_empty_document
                (fun _ _ => located_reply (s "United States") (s "California"))
                (s "https://www.google.com/maps/@37.7749295,-122.4194155,3a,75y")
                (377749295 # 10000000) (-1224194155 # 10000000)
                (s "United States") (s "California")
                {| Docs.pstyle := NORMAL_TEXT; Docs.ptext := [] |} [] []
                eq_refl eq_refl eq_refl eq_refl eq_refl
                ltac:(no_newline_tac) ltac:(no_newline_tac) eq_refl)
    as (_ & H & _).
  apply (f_equal (map Docs.ptext)) in H. exact H.
Defined.
